(** * Tagged PDF to HTML: a shallow embedding of the derivation engine

  The development follows the TypeScript sources of the repository:
  - [src/structure_traversal.ts]: role resolution, tag selection and the
    recursive descent over the structure tree;
  - [src/attribute_mapper.ts]: the attribute cascade;
  - [src/content_extractor.ts]: per-page correlation of marked content.

  Strings.  A JavaScript string is modelled by a Rocq [string] whose
  characters are the code units of the JavaScript string; the model covers
  code units 0..255 (Latin-1), which is where every literal the engine
  compares against or emits lives. *)

From Stdlib Require Import ZArith Ascii String List Bool Lia.
From stdpp Require Import gmap strings list.

Set Warnings "-register-all".

Infix "=s" := String.eqb (at level 70, no associativity).

(* ===================================================================== *)
(** ** JavaScript primitives used by the engine *)
(* ===================================================================== *)

Module Js.

Definition code (c : ascii) : N := N_of_ascii c.

(** The double quote and the newline, built from their codes. *)
Definition dq : string := String (ascii_of_nat 34) EmptyString.
Definition nl : string := String (ascii_of_nat 10) EmptyString.

(** [!s] is false exactly for the non-empty string. *)
Definition truthy (s : string) : bool :=
  match s with EmptyString => false | _ => true end.

(** White space of [\s] and of [String.prototype.trim] among the code
    units 0..255: TAB, LF, VT, FF, CR, SPACE and NBSP. *)
Definition isSpace (c : ascii) : bool :=
  let n := code c in
  ((9 <=? n) && (n <=? 13) || (n =? 32) || (n =? 160))%N.

Definition isDigit (c : ascii) : bool :=
  let n := code c in ((48 <=? n) && (n <=? 57))%N.

Definition isUpperAZ (c : ascii) : bool :=
  let n := code c in ((65 <=? n) && (n <=? 90))%N.

Definition isLowerAZ (c : ascii) : bool :=
  let n := code c in ((97 <=? n) && (n <=? 122))%N.

Definition isLetter (c : ascii) : bool := isUpperAZ c || isLowerAZ c.

(** [/[A-Za-z0-9]/] *)
Definition isAlnum (c : ascii) : bool := isLetter c || isDigit c.

Definition chars (s : string) : list ascii := list_ascii_of_string s.
Definition str (l : list ascii) : string := string_of_list_ascii l.

Fixpoint dropWhile {A} (p : A -> bool) (l : list A) : list A :=
  match l with
  | [] => []
  | x :: r => if p x then dropWhile p r else l
  end.

Fixpoint takeWhile {A} (p : A -> bool) (l : list A) : list A :=
  match l with
  | [] => []
  | x :: r => if p x then x :: takeWhile p r else []
  end.

Definition trimStart (s : string) : string := str (dropWhile isSpace (chars s)).
Definition trimEnd (s : string) : string :=
  str (rev (dropWhile isSpace (rev (chars s)))).
Definition trim (s : string) : string := trimEnd (trimStart s).

(** [toLowerCase] on code units 0..255: A-Z and the Latin-1 capitals
    U+00C0..U+00DE (without the multiplication sign U+00D7). *)
Definition lowerChar (c : ascii) : ascii :=
  let n := code c in
  if ((65 <=? n) && (n <=? 90) || (192 <=? n) && (n <=? 222) && negb (n =? 215))%N
  then ascii_of_N (n + 32) else c.

Definition toLowerCase (s : string) : string := str (map lowerChar (chars s)).

(** [toUpperCase], used by the engine on runs of [A-Za-z] only. *)
Definition upperCharAZ (c : ascii) : ascii :=
  if isLowerAZ c then ascii_of_N (code c - 32) else c.

Definition toUpperCaseAZ (s : string) : string := str (map upperCharAZ (chars s)).

Definition startsWith (p s : string) : bool := String.prefix p s.

(** Decimal rendering of an integer, [String(n)] for an integral number. *)
Definition digitChar (d : N) : ascii := ascii_of_N (48 + d).

Fixpoint natDigits (fuel : nat) (n : N) (acc : list ascii) : list ascii :=
  match fuel with
  | O => acc
  | S f =>
      let acc' := digitChar (n mod 10) :: acc in
      if (n / 10 =? 0)%N then acc' else natDigits f (n / 10) acc'
  end.

Definition stringOfN (n : N) : string := str (natDigits (S (N.to_nat (N.log2 n))) n []).

Definition stringOfZ (z : Z) : string :=
  if (z <? 0)%Z then "-" +:+ stringOfN (Z.to_N (- z)) else stringOfN (Z.to_N z).

(** [parseInt(s, 10)]: optional white space, optional sign, then the
    longest run of decimal digits; [None] stands for NaN. *)
Definition digitsValue (l : list ascii) : N :=
  fold_left (fun acc c => (acc * 10 + (code c - 48))%N) l 0%N.

Definition parseInt (s : string) : option Z :=
  let l := dropWhile isSpace (chars s) in
  let '(neg, l') :=
    match l with
    | c :: r => if Ascii.eqb c "-"%char then (true, r)
                else if Ascii.eqb c "+"%char then (false, r) else (false, l)
    | [] => (false, l)
    end in
  match takeWhile isDigit l' with
  | [] => None
  | ds => let v := Z.of_N (digitsValue ds) in Some (if neg then (- v)%Z else v)
  end.

(** [s.replace(/c/g, by)] for a single character [c]. *)
Fixpoint replaceAll (c : ascii) (by_ : string) (s : string) : string :=
  match s with
  | EmptyString => EmptyString
  | String x r =>
      if Ascii.eqb x c then by_ +:+ replaceAll c by_ r
      else String x (replaceAll c by_ r)
  end.

Definition join (sep : string) (l : list string) : string := String.concat sep l.

(** [hay.includes(needle)] *)
Fixpoint includes (needle hay : string) : bool :=
  if startsWith needle hay then true
  else match hay with
       | EmptyString => false
       | String _ r => includes needle r
       end.

End Js.

(* ===================================================================== *)
(** ** Role resolver ([resolveRole], [isStandardType]) *)
(* ===================================================================== *)

Module Roles.
Import Js.

Definition isPdfStandardNamespace (namespaceURI : string) : bool :=
  if negb (truthy namespaceURI) then true
  else
    let normalized := toLowerCase (trim namespaceURI) in
    if negb (truthy normalized) then true
    else if normalized =s "http://iso.org/pdf2/ssn" then true
    else if normalized =s "http://iso.org/pdf2/ssn#" then true
    else if normalized =s "http://iso.org/pdf2/ssn/1.0" then true
    else if normalized =s "http://iso.org/pdf/ssn" then true
    else if normalized =s "http://iso.org/pdf/ssn/1.0" then true
    else false.

(** The pattern the source tests role names with.  It is written
    [/^H\\d+$/] in the three places that use it; inside a regular
    expression literal the doubled backslash is one literal backslash, so
    the pattern accepts the letter H, a backslash, and then one or more
    letters d - and no digit at all. *)
Definition explicitHeadingRegex (role : string) : bool :=
  match role with
  | String "H"%char (String "\"%char rest) =>
      truthy rest && forallb (fun c => Ascii.eqb c "d"%char) (chars rest)
  | _ => false
  end.

Definition standardTypes : list string :=
  [ "Document"; "Part"; "Sect"; "Div"; "Art"; "BlockQuote"; "Caption";
    "TOC"; "TOCI"; "Index"; "NonStruct"; "Private"; "Aside";
    "Title"; "FENote"; "DocumentFragment";
    "P"; "H"; "H1"; "H2"; "H3"; "H4"; "H5"; "H6";
    "L"; "LI"; "Lbl"; "LBody";
    "Table"; "TR"; "TH"; "TD"; "THead"; "TBody"; "TFoot";
    "Span"; "Quote"; "Note"; "Reference"; "BibEntry"; "Code"; "Link";
    "Annot"; "Ruby"; "RB"; "RT"; "RP"; "Warichu"; "WT"; "WP";
    "Em"; "Strong"; "Sub"; "Sup";
    "Figure"; "Formula"; "Form";
    "Artifact" ].

Definition inList (x : string) (l : list string) : bool := existsb (String.eqb x) l.

Definition isStandardType (role : string) : bool :=
  if role =s "Hn" then true
  else if explicitHeadingRegex role then true
  else inList role standardTypes.

(** State of the [while] loop of [resolveRole]; [steps] counts the
    executions of [current = next]. *)
Record LoopState := mkLoop {
  current : string;
  seen : gset string;
  steps : nat
}.

Inductive Outcome :=
| Continue (st : LoopState)
| Break (st : LoopState).

(** One evaluation of the loop condition followed, when it holds, by one
    execution of the loop body. *)
Definition loopIteration (roleMap : gmap string string) (st : LoopState) : Outcome :=
  match roleMap !! current st with
  | None => Break st
  | Some next =>
      if decide (current st ∈ seen st) then Break st
      else
        let seen' := {[ current st ]} ∪ seen st in
        if negb (truthy next) then Break (mkLoop (current st) seen' (steps st))
        else
          let st' := mkLoop next seen' (S (steps st)) in
          if isStandardType next then Break st' else Continue st'
  end.

Fixpoint whileLoop (fuel : nat) (roleMap : gmap string string) (st : LoopState)
  : option LoopState :=
  match fuel with
  | O => None
  | S f =>
      match loopIteration roleMap st with
      | Break s => Some s
      | Continue s => whileLoop f roleMap s
      end
  end.

Definition initLoop (role : string) : LoopState := mkLoop role ∅ 0.

(** The run of [resolveRole]: the final loop state, or [None] if the fuel
    [size roleMap + 1] were not enough (it always is, see the theorems). *)
Definition resolveRoleRun (role : string) (roleMap : option (gmap string string))
    (namespaceURI : string) : option LoopState :=
  if negb (truthy role) then Some (initLoop role)
  else if isPdfStandardNamespace namespaceURI && isStandardType role
  then Some (initLoop role)
  else
    match roleMap with
    | None => Some (initLoop role)
    | Some rm => whileLoop (S (size rm)) rm (initLoop role)
    end.

Definition resolveRole (role : string) (roleMap : option (gmap string string))
    (namespaceURI : string) : string :=
  match resolveRoleRun role roleMap namespaceURI with
  | Some st => current st
  | None => role
  end.

End Roles.

(* ===================================================================== *)
(** ** Attribute cascade ([src/attribute_mapper.ts]) *)
(* ===================================================================== *)

Module AttributeMapper.
Import Js.

(** Values found in attribute dictionaries.  Numbers are integral in this
    model; [VObj] is any other object (a nested dictionary or stream). *)
Inductive PDFValue :=
| VName (name : string)
| VNum (n : Z)
| VStr (s : string)
| VBool (b : bool)
| VNull
| VArr (items : list PDFValue)
| VObj.

(** A dictionary, as its entries in key order ([getKeys]); [get] returns
    the entry of a key, or nothing ([undefined]). *)
Definition Dict := list (string * PDFValue).

Fixpoint get (d : Dict) (key : string) : option PDFValue :=
  match d with
  | [] => None
  | (k, v) :: r => if k =s key then Some v else get r key
  end.

Definition getKeys (d : Dict) : list string := map fst d.

(** [attributes]: absent, one entry, or an array of entries; an entry that
    is not a dictionary is [None]. *)
Inductive PDFAttributes :=
| AttrAbsent
| AttrOne (d : option Dict)
| AttrArray (ds : list (option Dict)).

Definition attrList (attributes : PDFAttributes) : list (option Dict) :=
  match attributes with
  | AttrAbsent => []
  | AttrOne d => [d]
  | AttrArray ds => ds
  end.

(** JavaScript truthiness of a value that is present. *)
Definition truthyV (v : PDFValue) : bool :=
  match v with
  | VName _ | VArr _ | VObj => true
  | VNum n => negb (n =? 0)%Z
  | VStr s => truthy s
  | VBool b => b
  | VNull => false
  end.

Definition truthyO (o : option PDFValue) : bool :=
  match o with Some v => truthyV v | None => false end.

(** [a || b] on possibly absent values. *)
Definition orElse (a b : option PDFValue) : option PDFValue :=
  if truthyO a then a else b.

(** [v?.name]: only a [Name] object has one. *)
Definition nameOf (o : option PDFValue) : option string :=
  match o with Some (VName s) => Some s | _ => None end.

(** [(v?.name)] when it is a non-empty string. *)
Definition truthyName (o : option PDFValue) : option string :=
  match nameOf o with
  | Some s => if truthy s then Some s else None
  | None => None
  end.

Definition objectString : string := "[object Object]".

(** [String(v)], also what a template literal interpolates. *)
Fixpoint jsString (v : PDFValue) : string :=
  match v with
  | VName _ => objectString
  | VNum n => stringOfZ n
  | VStr s => s
  | VBool true => "true"
  | VBool false => "false"
  | VNull => "null"
  | VObj => objectString
  | VArr items =>
      join ","
        ((fix each (l : list PDFValue) : list string :=
            match l with
            | [] => []
            | VNull :: r => EmptyString :: each r
            | x :: r => jsString x :: each r
            end) items)
  end.

(** [items.join(sep)] *)
Definition joinValues (sep : string) (items : list PDFValue) : string :=
  join sep (map (fun x => match x with VNull => EmptyString | _ => jsString x end) items).

(** [ToNumber]; [None] is NaN.  Strings, names and objects inside numeric
    arrays are treated as NaN. *)
Definition toNumber (o : option PDFValue) : option Z :=
  match o with
  | Some (VNum n) => Some n
  | Some (VBool b) => Some (if b then 1 else 0)%Z
  | Some VNull => Some 0%Z
  | _ => None
  end.

Definition numString (n : option Z) : string :=
  match n with Some z => stringOfZ z | None => "NaN" end.

Definition liftZ2 (f : Z -> Z -> Z) (a b : option Z) : option Z :=
  match a, b with Some x, Some y => Some (f x y) | _, _ => None end.

(** A JavaScript [Map<string, string>]: entries in insertion order;
    [set] on a present key replaces its value in place. *)
Definition JsMap := list (string * string).

Fixpoint mapSet (k v : string) (m : JsMap) : JsMap :=
  match m with
  | [] => [(k, v)]
  | (k', v') :: r => if k' =s k then (k, v) :: r else (k', v') :: mapSet k v r
  end.

Fixpoint mapGet (k : string) (m : JsMap) : option string :=
  match m with
  | [] => None
  | (k', v') :: r => if k' =s k then Some v' else mapGet k r
  end.

(** The [set] calls of a handler, in program order, are collected as a
    list of writes and then applied to the map. *)
Definition Writes := list (string * string).

Definition applyWrites (ws : Writes) (m : JsMap) : JsMap :=
  fold_left (fun acc kv => mapSet (fst kv) (snd kv) acc) ws m.

Definition when (b : bool) (ws : Writes) : Writes := if b then ws else [].

Definition px (v : PDFValue) : string := jsString v +:+ "px".

Definition isSome {A} (o : option A) : bool :=
  match o with Some _ => true | None => false end.

(** [if (x !== undefined) cssMap.set(key, `${x}px`)] *)
Definition setPx (key : string) (o : option PDFValue) : Writes :=
  match o with Some v => [(key, px v)] | None => [] end.

Definition nth_value (l : list PDFValue) (i : nat) : option PDFValue := nth_error l i.

Definition parseColor (colorObj : PDFValue) : string :=
  match colorObj with
  | VArr [g0] =>
      let g := numString (liftZ2 Z.mul (toNumber (Some g0)) (Some 255%Z)) in
      "rgb(" +:+ g +:+ ", " +:+ g +:+ ", " +:+ g +:+ ")"
  | VArr [r0; g0; b0] =>
      let ch x := numString (liftZ2 Z.mul (toNumber (Some x)) (Some 255%Z)) in
      "rgb(" +:+ ch r0 +:+ ", " +:+ ch g0 +:+ ", " +:+ ch b0 +:+ ")"
  | VArr [c; m; y; k] =>
      let one_minus x := liftZ2 Z.sub (Some 1%Z) (toNumber (Some x)) in
      let ch x :=
        numString (liftZ2 Z.mul (liftZ2 Z.mul (Some 255%Z) (one_minus x)) (one_minus k)) in
      "rgb(" +:+ ch c +:+ ", " +:+ ch m +:+ ", " +:+ ch y +:+ ")"
  | _ => "inherit"
  end.

Definition setColor (key : string) (o : option PDFValue) : Writes :=
  match o with
  | Some v => when (truthyV v) [(key, parseColor v)]
  | None => []
  end.

(** *** HTML attributes *)

Definition processListAttributes (attrDict : Dict) : Writes :=
  match truthyName (get attrDict "ListNumbering") with
  | Some listNumbering => [("data-list-numbering", toLowerCase listNumbering)]
  | None => []
  end.

Definition setString (key : string) (o : option PDFValue) : Writes :=
  match o with
  | Some v => when (truthyV v) [(key, jsString v)]
  | None => []
  end.

Definition processTableAttributes (attrDict : Dict) : Writes :=
  setString "colspan" (get attrDict "ColSpan")
  ++ setString "rowspan" (get attrDict "RowSpan")
  ++ match get attrDict "Headers" with
     | Some (VArr items) => [("headers", joinValues " " items)]
     | Some v => when (truthyV v) [("headers", jsString v)]
     | None => []
     end
  ++ match truthyName (get attrDict "Scope") with
     | Some scope => [("scope", toLowerCase scope)]
     | None => []
     end
  ++ setString "abbr" (get attrDict "Short")
  ++ setString "abbr" (get attrDict "Summary").

Definition processLayoutAttributesForHTML (attrDict : Dict) : Writes :=
  match truthyName (get attrDict "Placement") with
  | Some placement => [("data-placement", toLowerCase placement)]
  | None => []
  end.

(** Every key of the dictionary except the owner entry, with the value
    [get] returns for it. *)
Definition ownEntries (attrDict : Dict) : list (string * PDFValue) :=
  flat_map (fun key =>
    if key =s "O" then []
    else match get attrDict key with
         | Some VNull | None => []
         | Some v => [(key, v)]
         end) (getKeys attrDict).

Definition processHTMLAttributes (attrDict : Dict) : Writes :=
  map (fun kv => ("data-html-" +:+ toLowerCase (fst kv), jsString (snd kv)))
      (ownEntries attrDict).

Definition processCSSAttributesForHTML (attrDict : Dict) : Writes := [].

Definition processARIAAttributes (attrDict : Dict) : Writes :=
  map (fun kv =>
         let key := fst kv in
         ((if startsWith "aria-" key then key else "aria-" +:+ toLowerCase key),
          jsString (snd kv)))
      (ownEntries attrDict).

(** The owner categories, in the order in which they are applied. *)
Inductive Owner := OList | OTable | OLayout | OHTML | OCSS | OARIA | OUnknown.

Definition ownerName (attrDict : Dict) : option string := nameOf (get attrDict "O").

Definition htmlOwner (attrDict : Dict) : Owner :=
  match ownerName attrDict with
  | Some owner =>
      if owner =s "List" then OList
      else if owner =s "Table" then OTable
      else if owner =s "Layout" then OLayout
      else if startsWith "HTML" owner then OHTML
      else if startsWith "CSS" owner then OCSS
      else if (owner =s "ARIA") || startsWith "ARIA" owner then OARIA
      else OUnknown
  | None => OUnknown
  end.

Definition owner_eqb (a b : Owner) : bool :=
  match a, b with
  | OList, OList | OTable, OTable | OLayout, OLayout | OHTML, OHTML
  | OCSS, OCSS | OARIA, OARIA | OUnknown, OUnknown => true
  | _, _ => false
  end.

(** The dictionaries among the entries, non-dictionaries skipped. *)
Definition dicts (attributes : PDFAttributes) : list Dict :=
  flat_map (fun o => match o with Some d => [d] | None => [] end) (attrList attributes).

Definition ownedBy (classify : Dict -> Owner) (o : Owner) (ds : list Dict) : list Dict :=
  List.filter (fun d => owner_eqb (classify d) o) ds.

Definition writesOf (handler : Dict -> Writes) (ds : list Dict) : Writes :=
  flat_map handler ds.

Definition htmlListWrites attributes :=
  writesOf processListAttributes (ownedBy htmlOwner OList (dicts attributes)).
Definition htmlTableWrites attributes :=
  writesOf processTableAttributes
    (ownedBy htmlOwner OTable (dicts attributes)
     ++ ownedBy htmlOwner OUnknown (dicts attributes)).
Definition htmlLayoutWrites attributes :=
  writesOf processLayoutAttributesForHTML (ownedBy htmlOwner OLayout (dicts attributes)).
Definition htmlHTMLWrites attributes :=
  writesOf processHTMLAttributes (ownedBy htmlOwner OHTML (dicts attributes)).
Definition htmlCSSWrites attributes :=
  writesOf processCSSAttributesForHTML (ownedBy htmlOwner OCSS (dicts attributes)).
Definition htmlARIAWrites attributes :=
  writesOf processARIAAttributes (ownedBy htmlOwner OARIA (dicts attributes)).

Definition htmlAttrMap (attributes : PDFAttributes) : JsMap :=
  applyWrites (htmlARIAWrites attributes)
    (applyWrites (htmlCSSWrites attributes)
      (applyWrites (htmlHTMLWrites attributes)
        (applyWrites (htmlLayoutWrites attributes)
          (applyWrites (htmlTableWrites attributes)
            (applyWrites (htmlListWrites attributes) []))))).

Definition getHTMLAttributes (attributes : PDFAttributes) : string :=
  match attributes with
  | AttrAbsent => EmptyString
  | _ =>
      fold_left (fun attrs kv => attrs +:+ " " +:+ fst kv +:+ "=" +:+ dq +:+ snd kv +:+ dq)
                (htmlAttrMap attributes) EmptyString
  end.

Definition getBBox (attributes : PDFAttributes) : option (list PDFValue) :=
  (fix scan (ds : list Dict) : option (list PDFValue) :=
     match ds with
     | [] => None
     | d :: r =>
         match get d "BBox" with
         | Some (VArr [a; b; c; e]) => Some [a; b; c; e]
         | _ => scan r
         end
     end) (dicts attributes).

(** *** CSS properties *)

Definition processCSSFromList (attrDict : Dict) : Writes :=
  setPx "margin-left" (get attrDict "StartIndent")
  ++ match truthyName (get attrDict "ListNumbering") with
     | Some listNumbering =>
         if listNumbering =s "Disc" then [("list-style-type", "disc")]
         else if listNumbering =s "Circle" then [("list-style-type", "circle")]
         else if listNumbering =s "Square" then [("list-style-type", "square")]
         else if listNumbering =s "Decimal" then [("list-style-type", "decimal")]
         else if listNumbering =s "UpperRoman" then [("list-style-type", "upper-roman")]
         else if listNumbering =s "LowerRoman" then [("list-style-type", "lower-roman")]
         else if listNumbering =s "UpperAlpha" then [("list-style-type", "upper-alpha")]
         else if listNumbering =s "LowerAlpha" then [("list-style-type", "lower-alpha")]
         else []
     | None => []
     end.

Definition processCSSFromTable (attrDict : Dict) : Writes := [].

(** The margin-implying properties: each sets [display] to [block] and
    then its margin side. *)
Definition setMargin (side : string) (o : option PDFValue) : Writes :=
  match o with
  | Some v => [("display", "block"); (side, px v)]
  | None => []
  end.

Definition processLayoutCSSProperties (attrDict : Dict) : Writes :=
  setColor "background-color" (get attrDict "BackgroundColor")
  ++ setColor "border-color" (get attrDict "BorderColor")
  ++ match orElse (get attrDict "BorderStyle") (get attrDict "TBorderStyle") with
     | Some borderStyle =>
         when (truthyV borderStyle)
           [("border-style",
             toLowerCase (match borderStyle with
                          | VName name => name
                          | v => jsString v
                          end))]
     | None => []
     end
  ++ setPx "border-width" (get attrDict "BorderThickness")
  ++ setColor "color" (get attrDict "Color")
  ++ setPx "padding" (orElse (get attrDict "Padding") (get attrDict "TPadding"))
  ++ match truthyName (get attrDict "TextAlign") with
     | Some textAlign => [("text-align", toLowerCase textAlign)]
     | None => []
     end
  ++ setPx "text-indent" (get attrDict "TextIndent")
  ++ match get attrDict "LineHeight" with
     | Some lineHeight =>
         when (truthyV lineHeight)
           [("line-height",
             match lineHeight with
             | VName name => name
             | VNum n => stringOfZ n +:+ "pt"
             | v => jsString v
             end)]
     | None => []
     end
  ++ setMargin "margin-top" (get attrDict "SpaceBefore")
  ++ setMargin "margin-bottom" (get attrDict "SpaceAfter")
  ++ setMargin "margin-left" (get attrDict "StartIndent")
  ++ setMargin "margin-right" (get attrDict "EndIndent")
  ++ match get attrDict "BBox" with
     | Some (VArr [x0; y0; x1; y1]) =>
         let width := liftZ2 Z.sub (toNumber (Some x1)) (toNumber (Some x0)) in
         let height := liftZ2 Z.sub (toNumber (Some y1)) (toNumber (Some y0)) in
         [("width", numString width +:+ "px"); ("height", numString height +:+ "px")]
     | _ => []
     end
  ++ setPx "width" (get attrDict "Width")
  ++ setPx "height" (get attrDict "Height")
  ++ match truthyName (get attrDict "Placement") with
     | Some placement =>
         if placement =s "Block" then [("display", "block")]
         else if placement =s "Inline" then [("display", "inline")]
         else if placement =s "Before" then [("float", "left"); ("clear", "both")]
         else if placement =s "Start" then [("float", "left")]
         else if placement =s "End" then [("float", "right")]
         else []
     | None => []
     end
  ++ match truthyName (get attrDict "WritingMode") with
     | Some writingMode =>
         if writingMode =s "TbRl" then [("writing-mode", "vertical-rl")]
         else if (writingMode =s "LrTb") || (writingMode =s "RlTb")
         then [("writing-mode", "horizontal-tb")]
         else []
     | None => []
     end
  ++ setPx "vertical-align" (get attrDict "BaselineShift")
  ++ match truthyName (get attrDict "TextDecorationType") with
     | Some textDecoType =>
         if textDecoType =s "Underline" then [("text-decoration", "underline")]
         else if textDecoType =s "LineThrough" then [("text-decoration", "line-through")]
         else if textDecoType =s "Overline" then [("text-decoration", "overline")]
         else if textDecoType =s "None" then [("text-decoration", "none")]
         else []
     | None => []
     end
  ++ setColor "text-decoration-color" (get attrDict "TextDecorationColor")
  ++ match truthyName (get attrDict "RubyAlign") with
     | Some rubyAlign =>
         [("ruby-align",
           if rubyAlign =s "Start" then "start"
           else if rubyAlign =s "Center" then "center"
           else if rubyAlign =s "End" then "end"
           else if rubyAlign =s "Justify" then "space-between"
           else if rubyAlign =s "Distribute" then "space-around"
           else "auto")]
     | None => []
     end
  ++ match truthyName (get attrDict "RubyPosition") with
     | Some rubyPosition =>
         if rubyPosition =s "Before" then [("ruby-position", "over")]
         else if rubyPosition =s "After" then [("ruby-position", "under")]
         else []
     | None => []
     end.

Definition processCSSFromLayout (attrDict : Dict) : Writes :=
  processLayoutCSSProperties attrDict.

Definition processCSSFromCSS (attrDict : Dict) : Writes :=
  processLayoutCSSProperties attrDict.

(** [getCSSProperties] sorts the dictionaries into four groups only:
    everything that is not List, Table, Layout or CSS-owned joins the
    Table group. *)
Definition cssOwner (attrDict : Dict) : Owner :=
  match ownerName attrDict with
  | Some owner =>
      if owner =s "List" then OList
      else if owner =s "Table" then OTable
      else if owner =s "Layout" then OLayout
      else if startsWith "CSS" owner then OCSS
      else OUnknown
  | None => OUnknown
  end.

Definition cssListWrites attributes :=
  writesOf processCSSFromList (ownedBy cssOwner OList (dicts attributes)).
Definition cssTableWrites attributes :=
  writesOf processCSSFromTable
    (ownedBy cssOwner OTable (dicts attributes)
     ++ ownedBy cssOwner OUnknown (dicts attributes)).
Definition cssLayoutWrites attributes :=
  writesOf processCSSFromLayout (ownedBy cssOwner OLayout (dicts attributes)).
Definition cssCSSWrites attributes :=
  writesOf processCSSFromCSS (ownedBy cssOwner OCSS (dicts attributes)).

Definition cssMap (attributes : PDFAttributes) : JsMap :=
  applyWrites (cssCSSWrites attributes)
    (applyWrites (cssLayoutWrites attributes)
      (applyWrites (cssTableWrites attributes)
        (applyWrites (cssListWrites attributes) []))).

Definition getCSSProperties (attributes : PDFAttributes) : string :=
  match attributes with
  | AttrAbsent => EmptyString
  | _ =>
      fold_left (fun css kv => css +:+ fst kv +:+ ": " +:+ snd kv +:+ "; ")
                (cssMap attributes) EmptyString
  end.

End AttributeMapper.

(* ===================================================================== *)
(** ** Content correlation ([src/content_extractor.ts]) *)
(* ===================================================================== *)

Module Extractor.
Import Js AttributeMapper.

(** The operator codes of the object-model provider that the extractor
    tests for.  The table itself is not part of the repository. *)
Record OpsTable := mkOps {
  beginMarkedContent : Z;
  beginMarkedContentProps : Z;
  endMarkedContent : Z;
  paintXObject : Z;
  paintImageXObject : Z;
  paintImageXObjectRepeat : Z;
  paintInlineImageXObject : Z;
  paintInlineImageXObjectGroup : Z
}.

(** An inline image or image XObject as far as the engine looks at it. *)
Record ImageXObject := mkImage {
  imageWidth : option Z;
  imageHeight : option Z
}.

(** One element of an operator's argument array. *)
Inductive ArgValue :=
| ArgNum (n : Z)
| ArgStr (s : string)
| ArgDict (d : Dict)            (* an object with a [get] method *)
| ArgPlain (mcid : option Z)    (* any other object; its [MCID] field *)
| ArgImage (img : ImageXObject)
| ArgNull.

Record PDFOperator := mkOp { fn : Z; args : list ArgValue }.

Inductive ImageType := XObject | Inline.

Record ExtractedImage := mkExtracted {
  imgType : ImageType;
  imgName : option string;
  imgData : option ImageXObject;
  imgWidth : option Z;
  imgHeight : option Z
}.

Record MarkedContentProps := mkProps {
  Lang : option string;
  ActualText : option string;
  Alt : option string;
  E : option string
}.

Record TextItem := mkItem {
  itemType : option string;
  itemId : option string;
  itemStr : option string;
  hasEOL : bool
}.

(** The fields of a [ContentExtractor].  Keys of the maps are the numeric
    content ids; a key that is not a number can never be looked up with a
    number and is left out. *)
Record ContentExtractor := mkExtractor {
  mcidToText : gmap Z string;
  mcidHasContent : gset Z;
  lastTextMcids : gset Z;
  mcidToImages : gmap Z (list ExtractedImage);
  mcidToOps : gmap Z (list PDFOperator);
  mcidToProps : gmap Z MarkedContentProps;
  textStack : list (list Z)
}.

Definition newExtractor : ContentExtractor :=
  mkExtractor ∅ ∅ ∅ ∅ ∅ ∅ [].

(** *** Text items *)

(** [s.split(sep)] for a non-empty separator; [skip] counts the
    characters of a matched separator that are still to be passed. *)
Fixpoint splitFrom (sep : string) (skip : nat) (s : string) (cur : list ascii)
  : list string :=
  match s with
  | EmptyString => [str (rev cur)]
  | String c r =>
      match skip with
      | S k => splitFrom sep k r cur
      | O =>
          if startsWith sep s
          then str (rev cur) :: splitFrom sep (String.length sep - 1) r []
          else splitFrom sep 0 r (c :: cur)
      end
  end.

Definition split (sep s : string) : list string := splitFrom sep 0 s [].

Definition mcidsOfItemId (id : option string) : list Z :=
  match id with
  | Some id =>
      if truthy id then
        match split "_mc" id with
        | _ :: part :: _ =>
            match parseInt part with Some mcid => [mcid] | None => [] end
        | _ => []
        end
      else []
  | None => []
  end.

Definition activeSet (stack : list (list Z)) : gset Z :=
  list_to_set (concat stack).

Definition appendText (text suffix : string) (m : gmap Z string) (mcid : Z) : gmap Z string :=
  <[ mcid := default EmptyString (m !! mcid) +:+ text +:+ suffix ]> m.

Definition popStack {A} (stack : list A) : list A := removelast stack.

Definition processTextItem (x : ContentExtractor) (item : TextItem) : ContentExtractor :=
  let withStack s :=
    mkExtractor (mcidToText x) (mcidHasContent x) (lastTextMcids x)
                (mcidToImages x) (mcidToOps x) (mcidToProps x) s in
  if bool_decide (itemType item = Some "beginMarkedContentProps") then
    withStack (textStack x ++ [mcidsOfItemId (itemId item)])
  else if bool_decide (itemType item = Some "beginMarkedContent") then
    withStack (textStack x ++ [[]])
  else if bool_decide (itemType item = Some "endMarkedContent") then
    withStack (popStack (textStack x))
  else
    match itemStr item with
    | Some text =>
        if negb (truthy text) then x
        else
          let isWhitespaceOnly := trim text =s EmptyString in
          let activeMcids := activeSet (textStack x) in
          if bool_decide (activeMcids = ∅) then x
          else
            let hasActiveContent :=
              bool_decide (activeMcids ∩ mcidHasContent x ≠ ∅) in
            let targetMcids :=
              if isWhitespaceOnly && negb hasActiveContent
                 && negb (bool_decide (lastTextMcids x = ∅))
              then lastTextMcids x else activeMcids in
            let suffix := if hasEOL item then nl else EmptyString in
            let text' :=
              set_fold (fun mcid m => appendText text suffix m mcid)
                       (mcidToText x) targetMcids in
            if isWhitespaceOnly then
              mkExtractor text' (mcidHasContent x) (lastTextMcids x)
                          (mcidToImages x) (mcidToOps x) (mcidToProps x) (textStack x)
            else
              mkExtractor text' (activeMcids ∪ mcidHasContent x) activeMcids
                          (mcidToImages x) (mcidToOps x) (mcidToProps x) (textStack x)
    | None => x
    end.

Definition processTextItems (items : list TextItem) (x : ContentExtractor) : ContentExtractor :=
  fold_left processTextItem items x.

(** *** Operators *)

Definition stringOfValue (o : option PDFValue) : option string :=
  match o with
  | Some v => if truthyV v then Some (jsString v) else None
  | None => None
  end.

Definition contentPropsOf (props : Dict) : MarkedContentProps :=
  mkProps (stringOfValue (get props "Lang"))
          (stringOfValue (get props "ActualText"))
          (stringOfValue (get props "Alt"))
          (stringOfValue (get props "E")).

(** [Object.keys(contentProps).length > 0] *)
Definition hasKeys (p : MarkedContentProps) : bool :=
  isSome (Lang p) || isSome (ActualText p) || isSome (Alt p) || isSome (E p).

(** The [MCID] entry of dictionary-like properties, when it is a number. *)
Definition dictMcid (props : Dict) : option Z :=
  match get props "MCID" with
  | Some (VNum n) => Some n
  | _ => None
  end.

Definition recordImage (stack : list (list Z)) (image : ExtractedImage)
    (m : gmap Z (list ExtractedImage)) : gmap Z (list ExtractedImage) :=
  fold_left (fun acc mcid => <[ mcid := default [] (acc !! mcid) ++ [image] ]> acc)
            (concat stack) m.

Definition recordOp (stack : list (list Z)) (op : PDFOperator)
    (m : gmap Z (list PDFOperator)) : gmap Z (list PDFOperator) :=
  fold_left (fun acc mcid => <[ mcid := default [] (acc !! mcid) ++ [op] ]> acc)
            (concat stack) m.

Definition argNum (a : option ArgValue) : option Z :=
  match a with Some (ArgNum n) => Some n | _ => None end.

Definition argStr (a : option ArgValue) : option string :=
  match a with Some (ArgStr s) => Some s | _ => None end.

Definition argImage (a : option ArgValue) : option ImageXObject :=
  match a with Some (ArgImage i) => Some i | _ => None end.

(** One turn of the loop over the accumulated operators; the state is the
    local stack of marked-content regions and the extractor. *)
Definition operatorStep (OPS : OpsTable)
    (st : list (list Z) * ContentExtractor) (op : PDFOperator)
  : list (list Z) * ContentExtractor :=
  let '(stack, x) := st in
  let arg i := nth_error (args op) i in
  if (fn op =? beginMarkedContentProps OPS)%Z then
    match arg 1%nat with
    | Some (ArgNum mcid) => (stack ++ [[mcid]], x)
    | Some (ArgDict props) =>
        match dictMcid props with
        | Some mcid =>
            let contentProps := contentPropsOf props in
            let x' :=
              if hasKeys contentProps then
                mkExtractor (mcidToText x) (mcidHasContent x) (lastTextMcids x)
                            (mcidToImages x) (mcidToOps x)
                            (<[ mcid := contentProps ]> (mcidToProps x)) (textStack x)
              else x in
            (stack ++ [[mcid]], x')
        | None => (stack ++ [[]], x)
        end
    | Some (ArgPlain (Some mcid)) => (stack ++ [[mcid]], x)
    | _ => (stack ++ [[]], x)
    end
  else if (fn op =? beginMarkedContent OPS)%Z then (stack ++ [[]], x)
  else if (fn op =? endMarkedContent OPS)%Z then (popStack stack, x)
  else
    let images :=
      if ((fn op =? paintImageXObject OPS) || (fn op =? paintImageXObjectRepeat OPS))%Z then
        recordImage stack
          (mkExtracted XObject (argStr (arg 0%nat)) None (argNum (arg 1%nat)) (argNum (arg 2%nat)))
          (mcidToImages x)
      else if ((fn op =? paintInlineImageXObject OPS)
               || (fn op =? paintInlineImageXObjectGroup OPS))%Z then
        recordImage stack (mkExtracted Inline None (argImage (arg 0%nat)) None None)
          (mcidToImages x)
      else if (fn op =? paintXObject OPS)%Z then
        recordImage stack (mkExtracted XObject (argStr (arg 0%nat)) None None None)
          (mcidToImages x)
      else mcidToImages x in
    (stack,
     mkExtractor (mcidToText x) (mcidHasContent x) (lastTextMcids x)
                 images (recordOp stack op (mcidToOps x)) (mcidToProps x) (textStack x)).

Definition extractOperators (OPS : OpsTable) (operators : list PDFOperator)
    (x : ContentExtractor) : ContentExtractor :=
  snd (fold_left (operatorStep OPS) operators ([], x)).

(** What the engine reads of a page: the text items and the operator
    list that the provider delivers for it. *)
Record PDFPage := mkPage {
  textItems : list TextItem;
  operatorList : list PDFOperator
}.

Definition extract (OPS : OpsTable) (page : PDFPage) (x : ContentExtractor) : ContentExtractor :=
  extractOperators OPS (operatorList page) (processTextItems (textItems page) x).

(** *** Lookups *)

Definition getText (x : ContentExtractor) (mcid : Z) : string :=
  default EmptyString (mcidToText x !! mcid).

Definition getImages (x : ContentExtractor) (mcid : Z) : list ExtractedImage :=
  default [] (mcidToImages x !! mcid).

Definition getOperators (x : ContentExtractor) (mcid : Z) : list PDFOperator :=
  default [] (mcidToOps x !! mcid).

Definition getProperties (x : ContentExtractor) (mcid : Z) : option MarkedContentProps :=
  mcidToProps x !! mcid.

Definition hasVectorOperators (x : ContentExtractor) (mcid : Z) : bool :=
  existsb (fun op => ((13 <=? fn op) && (fn op <=? 28) || (fn op =? 91))%Z)
          (getOperators x mcid).

End Extractor.

(* ===================================================================== *)
(** ** Traversal and tag selection ([src/structure_traversal.ts]) *)
(* ===================================================================== *)

Module Traversal.
Import Js Roles AttributeMapper Extractor.

(** *** Escaping and text helpers *)

Definition chr (n : nat) : ascii := ascii_of_nat n.

(** [escapeHtml]: the five replacements, in the order of the source. *)
Definition escapeHtml (unsafe : string) : string :=
  replaceAll (chr 39) "&#039;"
    (replaceAll (chr 34) "&quot;"
      (replaceAll ">"%char "&gt;"
        (replaceAll "<"%char "&lt;"
          (replaceAll "&"%char "&amp;" unsafe)))).

Definition inChars (c : ascii) (l : list ascii) : bool := existsb (Ascii.eqb c) l.

Definition getFirstVisibleChar (text : string) : option ascii :=
  hd_error (dropWhile isSpace (chars text)).

Definition getLastVisibleChar (text : string) : option ascii :=
  hd_error (dropWhile isSpace (rev (chars text))).

Definition hasVisibleText (text : string) : bool :=
  existsb (fun c => negb (isSpace c)) (chars text).

Definition hasLeadingWhitespace (text : string) : bool :=
  match chars text with c :: _ => isSpace c | [] => false end.

Definition hasTrailingWhitespace (text : string) : bool :=
  match rev (chars text) with c :: _ => isSpace c | [] => false end.

Definition isWordChar (ch : ascii) : bool := isAlnum ch.

Record EdgeSplit := mkSplit { leading : string; core : string; trailing : string }.

Definition splitEdgeWhitespace (text : string) : EdgeSplit :=
  let l := chars text in
  let lead := takeWhile isSpace l in
  let rest := dropWhile isSpace l in
  let trail := rev (takeWhile isSpace (rev rest)) in
  let mid := rev (dropWhile isSpace (rev rest)) in
  mkSplit (str lead) (str mid) (str trail).

(** *** Role predicates and the default tag table *)

Definition roleIs (role : option string) (name : string) : bool :=
  match role with Some r => r =s name | None => false end.

Definition isHeadingRoleName (role : option string) : bool :=
  match role with
  | Some r =>
      if negb (truthy r) then false
      else if (r =s "H") || (r =s "Hn") || (r =s "Title") then true
      else explicitHeadingRegex r
  | None => false
  end.

Definition inlineTypes : list string :=
  [ "Span"; "Quote"; "Reference"; "BibEntry"; "Code"; "Link";
    "Annot"; "Ruby"; "RB"; "RT"; "RP"; "Warichu"; "WT"; "WP";
    "P"; "H"; "H1"; "H2"; "H3"; "H4"; "H5"; "H6";
    "Em"; "Strong"; "Sub"; "Sup"; "TH"; "TD" ].

Definition isInlineContext (parentRole : option string) : bool :=
  match parentRole with
  | Some r =>
      if negb (truthy r) then false
      else if isHeadingRoleName parentRole then true
      else inList r inlineTypes
  | None => false
  end.

Definition isMathMLTokenElement (tag : string) : bool :=
  if negb (truthy tag) then false
  else
    let normalized := toLowerCase tag in
    (normalized =s "mi") || (normalized =s "mn") || (normalized =s "mo")
    || (normalized =s "mtext") || (normalized =s "ms").

Definition defaultTags : list (string * string) :=
  [ ("Document", "div"); ("Part", "div"); ("Sect", "section"); ("Div", "div");
    ("Art", "article"); ("Aside", "aside"); ("Note", "p"); ("Index", "section");
    ("NonStruct", "div"); ("Private", "div"); ("Title", "h1"); ("FENote", "aside");
    ("DocumentFragment", "div");
    ("P", "p"); ("H", "h2"); ("H1", "h1"); ("H2", "h2"); ("H3", "h3");
    ("H4", "h4"); ("H5", "h5"); ("H6", "h6"); ("BlockQuote", "blockquote");
    ("TOC", "ol"); ("TOCI", "li"); ("L", "ul"); ("LI", "li"); ("Lbl", "span");
    ("LBody", "div"); ("Table", "table"); ("TR", "tr"); ("TH", "th"); ("TD", "td");
    ("THead", "thead"); ("TBody", "tbody"); ("TFoot", "tfoot"); ("Span", "span");
    ("Quote", "q"); ("Code", "code"); ("Em", "em"); ("Strong", "strong");
    ("Sub", "sub"); ("Sup", "sup"); ("Link", "a"); ("Reference", "a");
    ("BibEntry", "p"); ("Ruby", "ruby"); ("RB", "rb"); ("RT", "rt"); ("RP", "rp");
    ("Warichu", "span"); ("WT", "span"); ("WP", "span"); ("Annot", "span");
    ("Form", "div") ].

Definition mapRoleToTag (role : string) (parentRole : option string) : string :=
  if (role =s "P") && isHeadingRoleName parentRole then "span"
  else if role =s "Caption" then
    if roleIs parentRole "Table" then "caption"
    else if roleIs parentRole "Figure" || roleIs parentRole "Formula" then "figcaption"
    else "caption"
  else if (role =s "Figure") || (role =s "Formula") then
    if isInlineContext parentRole then "span" else "figure"
  else default "div" (mapGet role defaultTags).

Definition shouldInsertInlineSpace (parentRole childRole : option string)
    (prevText nextText : string) (prevHadActualText nextHasActualText : bool)
    (nextRootTag : option string) : bool :=
  if negb (isInlineContext parentRole) then false
  else if negb (truthy prevText) || negb (truthy nextText) then false
  else if roleIs childRole "Sup" || roleIs childRole "Sub" then false
  else if roleIs nextRootTag "sup" || roleIs nextRootTag "sub" then false
  else if negb (hasVisibleText prevText) || negb (hasVisibleText nextText) then false
  else if hasTrailingWhitespace prevText || hasLeadingWhitespace nextText then false
  else
    match getLastVisibleChar prevText, getFirstVisibleChar nextText with
    | Some prevChar, Some nextChar =>
        let shouldConsider :=
          prevHadActualText || nextHasActualText
          || inChars prevChar [":"; ";"; "."; "!"; "?"]%char in
        if negb shouldConsider then false
        else if inChars prevChar ["("; "["; "{"; chr 34; chr 39; "/"; "-"]%char then false
        else if inChars nextChar
                  ["]"; ")"; "}"; "."; ","; ";"; ":"; "!"; "?"; "%"]%char then false
        else isWordChar nextChar
    | _, _ => false
    end.

(** *** List labels *)

(** The first maximal run of characters satisfying [p], as [match] with a
    pattern of the form [/[class]+/] returns it. *)
Definition firstRun (p : ascii -> bool) (s : string) : option string :=
  match takeWhile p (dropWhile (fun c => negb (p c)) (chars s)) with
  | [] => None
  | run => Some (str run)
  end.

Definition parseListStart (labelText : option string) : option Z :=
  match labelText with
  | Some t =>
      if negb (truthy t) then None
      else match firstRun isDigit t with
           | Some digits => parseInt digits
           | None => None
           end
  | None => None
  end.

Definition isRomanLetter (c : ascii) : bool :=
  inChars (lowerChar c) ["i"; "v"; "x"; "l"; "c"; "d"; "m"]%char.

Definition parseListType (labelText : option string) : option string :=
  match labelText with
  | Some t =>
      if negb (truthy t) then None
      else match firstRun isLetter t with
           | Some letters =>
               let isUpper := letters =s toUpperCaseAZ letters in
               let isRoman := forallb isRomanLetter (chars letters) in
               if isRoman then Some (if isUpper then "I" else "i")
               else Some (if isUpper then "A" else "a")
           | None => None
           end
  | None => None
  end.

(** [\s+] runs replaced by one space, then [trim]. *)
Fixpoint collapseSpaces (l : list ascii) (inRun : bool) : list ascii :=
  match l with
  | [] => []
  | c :: r =>
      if isSpace c then
        if inRun then collapseSpaces r true else " "%char :: collapseSpaces r true
      else c :: collapseSpaces r false
  end.

Definition normalizeLabel (text : string) : string :=
  trim (str (collapseSpaces (chars text) false)).

(** [calculateImageDimensions]: [Math.round((d / 72) * 96)] on an integral
    dimension; four thirds of an integer never ends in one half, so the
    rounding is the floor of [4 d / 3 + 1 / 2]. *)
Definition scaleDimension (d : Z) : Z := ((8 * d + 3) / 6)%Z.

(** *** The structure tree and the traversal state *)

Record Ref := mkRef { num : Z; gen : Z }.

(** What [getStructureAssociatedFiles] found for an element. *)
Record AFResult := mkAF {
  replacement : option string;
  supplements : list string
}.

Definition noAF : AFResult := mkAF None [].

(** An entry of [C]: a name, a string, or another non-null value (whose
    truthiness is recorded). *)
Inductive ClassValue :=
| ClassName (name : string)
| ClassString (s : string)
| ClassOther (isTruthy : bool).

Inductive Classes :=
| ClassAbsent
| ClassOne (v : ClassValue)
| ClassArray (vs : list ClassValue).

(** The entries of a structure-tree dictionary that the engine reads,
    other than [K].  [fNS] is the [NS] string of the namespace dictionary
    that [NS] refers to; [fMCID] is [MCID] when it is an integer; [fAF] is
    the outcome of the associated-files lookup for the element. *)
Record Fields := mkFields {
  fType : option string;
  fS : option string;
  fNS : option string;
  fPg : option Ref;
  fA : PDFAttributes;
  fC : Classes;
  fID : option string;
  fLang : option string;
  fActualText : option string;
  fAlt : option string;
  fE : option string;
  fT : option string;
  fMCID : option Z;
  fAF : AFResult
}.

Inductive Kids (A : Type) :=
| KAbsent
| KOne (c : A)
| KArray (cs : list A).
Arguments KAbsent {A}.
Arguments KOne {A} c.
Arguments KArray {A} cs.

(** A child as [fetchIfRef] resolves it.  [ref] is the reference through
    which an array element was reached, if it was one; [addr] is the
    identity of the dictionary object (the key of the [WeakMap]s). *)
Inductive StructObj :=
| ONull
| ONumber (n : Z)
| OOther
| ODict (ref : option Ref) (addr : N) (f : Fields) (k : Kids StructObj).

Definition ClassMap := list (string * list (option Dict)).

Record StructTreeRoot := mkRoot {
  roleMap : option (gmap string string);
  classMap : option ClassMap;
  rootKids : Kids StructObj
}.

Record PDFContext := mkContext {
  structTreeRoot : option StructTreeRoot;
  getPageIndex : Ref -> Z;
  getPage : Z -> PDFPage
}.

Record RenderedContent := mkRendered {
  html : string;
  text : string;
  rootTag : option string
}.

Definition emptyContent : RenderedContent := mkRendered EmptyString EmptyString None.

Record IdState := mkIds {
  byRef : gmap string string;
  byDict : gmap N string;
  counter : Z
}.

Record TraversalContext := mkCtx {
  parentRole : option string;
  listNumbering : option string;
  listHasLbl : bool;
  bbox : option (list PDFValue);
  headingLevel : option Z;
  imageAlt : option string;
  preferVector : bool;
  mathmlTokenContext : bool
}.

Definition withParentRole (c : TraversalContext) (r : option string) :=
  mkCtx r (listNumbering c) (listHasLbl c) (bbox c) (headingLevel c)
        (imageAlt c) (preferVector c) (mathmlTokenContext c).
Definition withListNumbering (c : TraversalContext) (n : option string) :=
  mkCtx (parentRole c) n (listHasLbl c) (bbox c) (headingLevel c)
        (imageAlt c) (preferVector c) (mathmlTokenContext c).
Definition withListHasLbl (c : TraversalContext) (b : bool) :=
  mkCtx (parentRole c) (listNumbering c) b (bbox c) (headingLevel c)
        (imageAlt c) (preferVector c) (mathmlTokenContext c).
Definition withBBox (c : TraversalContext) (b : option (list PDFValue)) :=
  mkCtx (parentRole c) (listNumbering c) (listHasLbl c) b (headingLevel c)
        (imageAlt c) (preferVector c) (mathmlTokenContext c).
Definition withHeadingLevel (c : TraversalContext) (l : option Z) :=
  mkCtx (parentRole c) (listNumbering c) (listHasLbl c) (bbox c) l
        (imageAlt c) (preferVector c) (mathmlTokenContext c).
Definition withImageAlt (c : TraversalContext) (a : option string) :=
  mkCtx (parentRole c) (listNumbering c) (listHasLbl c) (bbox c) (headingLevel c)
        a (preferVector c) (mathmlTokenContext c).
Definition withPreferVector (c : TraversalContext) (b : bool) :=
  mkCtx (parentRole c) (listNumbering c) (listHasLbl c) (bbox c) (headingLevel c)
        (imageAlt c) b (mathmlTokenContext c).
Definition withMathmlTokenContext (c : TraversalContext) (b : bool) :=
  mkCtx (parentRole c) (listNumbering c) (listHasLbl c) (bbox c) (headingLevel c)
        (imageAlt c) (preferVector c) b.

(** The collaborators outside the repository's traversal: the provider's
    operator codes and string decoder, and the routines whose results
    depend on annotation objects, raster data or floating-point geometry
    (link targets, form widgets, image conversion, vector emission, the
    text of an associated-file replacement). *)
Record Provider := mkProvider {
  OPS : OpsTable;
  stringToPDFString : string -> string;
  linkHref : Fields -> IdState -> string * IdState;
  processOBJR : Fields -> option Ref -> RenderedContent;
  xobjectImage : Z -> string -> string * option Z * option Z;
  convertImageXObject : ImageXObject -> string;
  generateSVG : list PDFOperator -> list PDFValue -> string;
  extractTextFromHtml : string -> string
}.

(** *** Identifier allocation *)

Definition getRefKey (r : Ref) : string :=
  stringOfZ (num r) +:+ "R" +:+ stringOfZ (gen r).

Definition nonEmpty (o : option string) : option string :=
  match o with Some s => if truthy s then Some s else None | None => None end.

Definition lookupGeneratedId (ref : option Ref) (addr : N) (idState : IdState)
  : option string :=
  match ref with
  | Some r => nonEmpty (byRef idState !! getRefKey r)
  | None => nonEmpty (byDict idState !! addr)
  end.

Definition ensureGeneratedId (ref : option Ref) (addr : N) (idState : IdState)
  : string * IdState :=
  match lookupGeneratedId ref addr idState with
  | Some existing => (existing, idState)
  | None =>
      match ref with
      | Some r =>
          let generated := "pdf-se-" +:+ stringOfZ (num r) +:+ "-" +:+ stringOfZ (gen r) in
          (generated,
           mkIds (<[ getRefKey r := generated ]> (byRef idState))
                 (byDict idState) (counter idState))
      | None =>
          let generated := "pdf-se-" +:+ stringOfZ (counter idState) in
          (generated,
           mkIds (byRef idState) (<[ addr := generated ]> (byDict idState))
                 (counter idState + 1)%Z)
      end
  end.

(** *** Looking at a child without rendering it *)

Definition contextRoleMap (context : PDFContext) : option (gmap string string) :=
  match structTreeRoot context with Some r => roleMap r | None => None end.

Section WithProvider.
Variable P : Provider.
Variable context : PDFContext.

Definition getNamespaceURI (f : Fields) : string :=
  match fNS f with
  | Some ns => if truthy ns then stringToPDFString P ns else EmptyString
  | None => EmptyString
  end.

(** [S] when it is a non-empty name. *)
Definition structType (f : Fields) : option string := nonEmpty (fS f).

(** The resolved role of a child that is a dictionary with a type. *)
Definition resolvedRole (f : Fields) : option string :=
  match structType f with
  | Some sType => Some (resolveRole sType (contextRoleMap context) (getNamespaceURI f))
  | None => None
  end.

Definition getElementRole (child : StructObj) : option string :=
  match child with
  | ODict _ _ f _ => resolvedRole f
  | _ => None
  end.

(** [getElementInfo]: the role, and whether [ActualText] is present. *)
Definition getElementInfo (child : StructObj) : option string * bool :=
  match child with
  | ODict _ _ f _ =>
      match resolvedRole f with
      | Some role => (Some role, isSome (fActualText f))
      | None => (None, false)
      end
  | _ => (None, false)
  end.

Definition isCaption (child : StructObj) : bool := roleIs (getElementRole child) "Caption".

(** [reorderCaptionElements], on children paired with anything. *)
Definition reorderCaptionElements {B} (children : list (StructObj * B))
  : list (StructObj * B) :=
  List.filter (fun cb => isCaption (fst cb)) children
  ++ List.filter (fun cb => negb (isCaption (fst cb))) children.

(** A value of [K] that is falsy in a condition: absent, null, or the
    number zero. *)
Definition kidsFalsy (k : Kids StructObj) : bool :=
  match k with
  | KAbsent => true
  | KOne ONull => true
  | KOne (ONumber n) => (n =? 0)%Z
  | _ => false
  end.

(** [Array.isArray(k) ? k : [k]] for a [K] that is not falsy. *)
Definition kidsList (k : Kids StructObj) : list StructObj :=
  match k with
  | KAbsent => []
  | KOne c => [c]
  | KArray cs => cs
  end.

Definition hasLinkChild (k : Kids StructObj) : bool :=
  if kidsFalsy k then false
  else existsb (fun child => roleIs (getElementRole child) "Link") (kidsList k).

(** [hasLblDescendant], with the set of dictionaries already visited. *)
Fixpoint hasLblDescendant (element : StructObj) (visited : gset N) : bool * gset N :=
  match element with
  | ODict _ addr f k =>
      if decide (addr ∈ visited) then (false, visited)
      else
        let visited := {[ addr ]} ∪ visited in
        if roleIs (resolvedRole f) "Lbl" then (true, visited)
        else if kidsFalsy k then (false, visited)
        else
          match k with
          | KAbsent => (false, visited)
          | KOne c => hasLblDescendant c visited
          | KArray cs =>
              (fix each (l : list StructObj) (visited : gset N) : bool * gset N :=
                 match l with
                 | [] => (false, visited)
                 | c :: r =>
                     let '(found, visited') := hasLblDescendant c visited in
                     if found then (true, visited') else each r visited'
                 end) cs visited
          end
  | _ => (false, visited)
  end.

Definition hasLblChildren (k : Kids StructObj) (listItemRole : string) : bool :=
  let children :=
    match k with
    | KArray cs => cs
    | KOne ONull | KAbsent => []
    | KOne c => [c]
    end in
  fst (fold_left
         (fun (acc : bool * gset N) child =>
            let '(found, visited) := acc in
            if found then acc
            else if roleIs (getElementRole child) listItemRole
                 then hasLblDescendant child visited
                 else acc)
         children (false, ∅)).

(** *** Reading attributes and classes *)

Definition getAttribute (attributes : PDFAttributes) (name : string) : option PDFValue :=
  match attributes with
  | AttrAbsent => None
  | _ =>
      (fix scan (ds : list Dict) : option PDFValue :=
         match ds with
         | [] => None
         | d :: r => if truthyO (get d name) then get d name else scan r
         end) (dicts attributes)
  end.

(** [stringToPDFString] of an attribute value; a value that is not a
    string has no characters to decode. *)
Definition pdfStringOf (v : PDFValue) : string :=
  match v with VStr s => stringToPDFString P s | _ => EmptyString end.

Definition getPronunciationHint (attributes : PDFAttributes) : option string :=
  match getAttribute attributes "Phoneme" with
  | Some phoneme => Some (pdfStringOf phoneme)
  | None =>
      match getAttribute attributes "Pronunciation" with
      | Some pronunciation => Some (pdfStringOf pronunciation)
      | None => None
      end
  end.

Definition classValueName (v : ClassValue) : string :=
  match v with
  | ClassName name => name
  | ClassString s => s
  | ClassOther _ => EmptyString
  end.

Definition extractClassNames (classes : Classes) : list string :=
  List.filter truthy
    (match classes with
     | ClassAbsent => []
     | ClassOne v => [classValueName v]
     | ClassArray vs => map classValueName vs
     end).

Definition classesTruthy (classes : Classes) : bool :=
  match classes with
  | ClassAbsent => false
  | ClassOne (ClassName _) => true
  | ClassOne (ClassString s) => truthy s
  | ClassOne (ClassOther b) => b
  | ClassArray _ => true
  end.

Definition getListNumbering (attributes : PDFAttributes) (classes : Classes)
  : option string :=
  match truthyName (getAttribute attributes "ListNumbering") with
  | Some direct => Some direct
  | None =>
      match extractClassNames classes, structTreeRoot context with
      | [], _ => None
      | classNames, Some root =>
          match classMap root with
          | Some cm =>
              (fix byClass (names : list string) : option string :=
                 match names with
                 | [] => None
                 | className :: rest =>
                     let classDicts :=
                       flat_map (fun o => match o with Some d => [d] | None => [] end)
                                (default [] (snd <$> find (fun e => fst e =s className) cm)) in
                     match
                       (fix byDict (ds : list Dict) : option string :=
                          match ds with
                          | [] => None
                          | d :: r =>
                              if roleIs (nameOf (get d "O")) "List" then
                                match truthyName (get d "ListNumbering") with
                                | Some n => Some n
                                | None => byDict r
                                end
                              else byDict r
                          end) classDicts
                     with
                     | Some n => Some n
                     | None => byClass rest
                     end
                 end) classNames
          | None => None
          end
      | _, None => None
      end
  end.


(** *** Marked-content leaves *)

(** The extractor of a page: the outcome of the one extraction pass that
    the engine runs for it and then keeps. *)
Definition extractorFor (pageIndex : Z) : ContentExtractor :=
  extract (OPS P) (getPage context pageIndex) newExtractor.

Definition fetchTextForMCID (mcid : Z) (pgRef : option Ref) : string :=
  match pgRef with
  | Some pg =>
      let pageIndex := getPageIndex context pg in
      if (pageIndex =? -1)%Z then EmptyString
      else getText (extractorFor pageIndex) mcid
  | None => EmptyString
  end.

Definition orRef (a b : option Ref) : option Ref :=
  match a with Some _ => a | None => b end.

Fixpoint getPlainTextForStructElement (element : StructObj) (inheritedPageRef : option Ref)
  : string :=
  match element with
  | ODict _ _ f k =>
      match nonEmpty (fActualText f) with
      | Some actualText => stringToPDFString P actualText
      | None =>
          let childText (rec : option Ref -> string) (c : StructObj) : string :=
            match c with
            | ONull | OOther => EmptyString
            | ONumber n =>
                if (n =? 0)%Z then EmptyString else fetchTextForMCID n inheritedPageRef
            | ODict _ _ cf _ =>
                let childPgRef := orRef (fPg cf) inheritedPageRef in
                if roleIs (fType cf) "MCR" then
                  match fMCID cf with
                  | Some mcid => fetchTextForMCID mcid childPgRef
                  | None => EmptyString
                  end
                else if roleIs (fType cf) "OBJR" then EmptyString
                else rec childPgRef
            end in
          if kidsFalsy k then EmptyString
          else
            match k with
            | KAbsent => EmptyString
            | KOne c => childText (getPlainTextForStructElement c) c
            | KArray cs =>
                (fix each (l : list StructObj) : string :=
                   match l with
                   | [] => EmptyString
                   | c :: r => childText (getPlainTextForStructElement c) c +:+ each r
                   end) cs
            end
      end
  | _ => EmptyString
  end.

(** The [K] of a list item as a list: [Array.isArray(k) ? k : k ? [k] : []]. *)
Definition truthyKidsList (k : Kids StructObj) : list StructObj :=
  if kidsFalsy k then [] else kidsList k.

(** [None] when no list item holds a label; [Some None] when the first
    label found has no text. *)
Definition firstLabelOf (k : Kids StructObj) (inheritedPageRef : option Ref)
  : option (option string) :=
  (fix items (lis : list StructObj) : option (option string) :=
     match lis with
     | [] => None
     | ODict _ _ f liKids :: rest =>
         if roleIs (resolvedRole f) "LI" then
           match
             (fix labels (l : list StructObj) : option (option string) :=
                match l with
                | [] => None
                | (ODict _ _ lf _ as liChild) :: r =>
                    if roleIs (resolvedRole lf) "Lbl" then
                      let lblPgRef := orRef (fPg lf) inheritedPageRef in
                      let trimmed :=
                        normalizeLabel (getPlainTextForStructElement liChild lblPgRef) in
                      Some (nonEmpty (Some trimmed))
                    else labels r
                | _ :: r => labels r
                end) (truthyKidsList liKids)
           with
           | Some found => Some found
           | None => items rest
           end
         else items rest
     | _ :: rest => items rest
     end) (truthyKidsList k).

Definition getFirstListLabelText (k : Kids StructObj) (inheritedPageRef : option Ref)
  : option string :=
  match firstLabelOf k inheritedPageRef with
  | Some found => found
  | None => None
  end.

Definition zTruthy (o : option Z) : bool :=
  match o with Some z => negb (z =? 0)%Z | None => false end.

Definition absO (o : option Z) : option Z :=
  match o with Some z => Some (Z.abs z) | None => None end.

Definition calculateImageDimensions (pdfWidth pdfHeight : option Z)
  : option Z * option Z :=
  (scaleDimension <$> pdfWidth, scaleDimension <$> pdfHeight).

(** The three shapes of an [img] element, or nothing. *)
Definition imageMarkup (dataUri : string) (width height : option Z)
    (altAttr fallbackAltAttr : string) : string :=
  if truthy dataUri && zTruthy width && zTruthy height then
    "<img src=" +:+ dq +:+ dataUri +:+ dq
    +:+ " width=" +:+ dq +:+ numString width +:+ dq
    +:+ " height=" +:+ dq +:+ numString height +:+ dq +:+ altAttr +:+ " />"
  else if truthy dataUri then
    "<img src=" +:+ dq +:+ dataUri +:+ dq +:+ altAttr +:+ " />"
  else if zTruthy width && zTruthy height then
    "<img src=" +:+ dq +:+ "placeholder.png" +:+ dq
    +:+ " width=" +:+ dq +:+ numString width +:+ dq
    +:+ " height=" +:+ dq +:+ numString height +:+ dq +:+ fallbackAltAttr +:+ " />"
  else EmptyString.

Definition bboxDimensions (bbox : option (list PDFValue)) : option (option Z * option Z) :=
  match bbox with
  | Some [x0; y0; x1; y1] =>
      Some (calculateImageDimensions
              (absO (liftZ2 Z.sub (toNumber (Some x1)) (toNumber (Some x0))))
              (absO (liftZ2 Z.sub (toNumber (Some y1)) (toNumber (Some y0)))))
  | _ => None
  end.

Definition renderImage (pageIndex : Z) (bbox : option (list PDFValue))
    (imageAlt : option string) (img : ExtractedImage) : string :=
  let altValue :=
    match nonEmpty imageAlt with Some a => escapeHtml a | None => EmptyString end in
  let altAttr := " alt=" +:+ dq +:+ altValue +:+ dq in
  let fallbackAltAttr :=
    match nonEmpty imageAlt with
    | Some _ => altAttr
    | None => " alt=" +:+ dq +:+ "(Conversion Failed)" +:+ dq
    end in
  let bboxDims := bboxDimensions bbox in
  match imgType img, nonEmpty (imgName img), imgData img with
  | XObject, Some name, _ =>
      let '(dataUri, width0, height0) := xobjectImage P pageIndex name in
      let '(width, height) :=
        match bboxDims with
        | Some dims => dims
        | None =>
            if zTruthy (imgWidth img) && zTruthy (imgHeight img)
               && (negb (zTruthy width0) || negb (zTruthy height0))
            then calculateImageDimensions (imgWidth img) (imgHeight img)
            else (width0, height0)
        end in
      imageMarkup dataUri width height altAttr fallbackAltAttr
  | Inline, _, Some data =>
      let dataUri := convertImageXObject P data in
      let '(width, height) :=
        match bboxDims with
        | Some dims => dims
        | None =>
            let orHundred o := if zTruthy o then o else Some 100%Z in
            calculateImageDimensions (orHundred (imageWidth data)) (orHundred (imageHeight data))
        end in
      imageMarkup dataUri width height altAttr fallbackAltAttr
  | _, _, _ => EmptyString
  end.

(** [renderVectorGraphics]: nothing for a degenerate box; otherwise the
    provider's vector markup for the operators and the box. *)
Definition renderVectorGraphics (operators : list PDFOperator) (bbox : option (list PDFValue))
  : string :=
  match bbox with
  | Some (x1 :: y1 :: x2 :: y2 :: rest) =>
      let width := absO (liftZ2 Z.sub (toNumber (Some x2)) (toNumber (Some x1))) in
      let height := absO (liftZ2 Z.sub (toNumber (Some y2)) (toNumber (Some y1))) in
      let nonPositive o := match o with Some z => (z <=? 0)%Z | None => false end in
      if nonPositive width || nonPositive height then EmptyString
      else generateSVG P operators (x1 :: y1 :: x2 :: y2 :: rest)
  | _ => EmptyString
  end.

Definition fetchContentForMCID (mcid : Z) (pgRef : Ref)
    (bbox : option (list PDFValue)) (imageAlt : option string)
    (preferVector trimText : bool) : RenderedContent :=
  let pageIndex := getPageIndex context pgRef in
  if (pageIndex =? -1)%Z then emptyContent
  else
    let extractor := extractorFor pageIndex in
    let images := getImages extractor mcid in
    let hasImages := negb (bool_decide (images = [])) in
    let imagesHtml := String.concat EmptyString (map (renderImage pageIndex bbox imageAlt) images) in
    let props := getProperties extractor mcid in
    let propActualText := nonEmpty (props ≫= ActualText) in
    let propLang := nonEmpty (props ≫= Lang) in
    let propAlt := nonEmpty (props ≫= Alt) in
    let rawText :=
      match propActualText with
      | Some a => a
      | None => getText extractor mcid
      end in
    let parts := splitEdgeWhitespace rawText in
    let leadingWhitespace := if trimText then EmptyString else leading parts in
    let trailingWhitespace := if trimText then EmptyString else trailing parts in
    let coreText := core parts in
    let renderedText := if trimText then core parts else rawText in
    let escapedLeading := escapeHtml leadingWhitespace in
    let escapedCore := escapeHtml coreText in
    let escapedTrailing := escapeHtml trailingWhitespace in
    let escapedText := escapeHtml renderedText in
    let hasVector := isSome bbox && hasVectorOperators extractor mcid in
    let suppressText := preferVector && negb hasImages && hasVector in
    let '(textHtml, text) :=
      if truthy escapedText && negb suppressText then
        match propLang with
        | Some lang =>
            (escapedLeading
             +:+ "<span lang=" +:+ dq +:+ escapeHtml lang +:+ dq
             +:+ match propAlt with
                 | Some alt => " title=" +:+ dq +:+ escapeHtml alt +:+ dq
                 | None => EmptyString
                 end
             +:+ ">" +:+ escapedCore +:+ "</span>" +:+ escapedTrailing,
             renderedText)
        | None => (escapedLeading +:+ escapedCore +:+ escapedTrailing, renderedText)
        end
      else
        match propAlt with
        | Some alt =>
            if negb (truthy escapedText)
            then ("<span title=" +:+ dq +:+ escapeHtml alt +:+ dq +:+ "></span>", EmptyString)
            else (EmptyString, EmptyString)
        | None => (EmptyString, EmptyString)
        end in
    let vectorHtml :=
      if negb hasImages && hasVector && (preferVector || negb (truthy escapedText)) then
        let operators := getOperators extractor mcid in
        if bool_decide (operators = []) then EmptyString
        else renderVectorGraphics operators bbox
      else EmptyString in
    mkRendered (imagesHtml +:+ textHtml +:+ vectorHtml) text None.

Definition processMCID (mcid : Z) (pgRef : Ref) (ctx : TraversalContext) : RenderedContent :=
  fetchContentForMCID mcid pgRef (bbox ctx) (imageAlt ctx) (preferVector ctx)
                      (mathmlTokenContext ctx).

Definition processMCR (mcr : Fields) (inheritedPageRef : option Ref)
    (ctx : TraversalContext) : RenderedContent :=
  match fMCID mcr, orRef (fPg mcr) inheritedPageRef with
  | Some mcid, Some pgRef =>
      fetchContentForMCID mcid pgRef (bbox ctx) (imageAlt ctx) (preferVector ctx)
                          (mathmlTokenContext ctx)
  | _, _ => emptyContent
  end.


(** *** Tag selection *)

Definition isGroupingRole (role : string) : bool :=
  (role =s "Sect") || (role =s "Div") || (role =s "Art") || (role =s "Aside")
  || (role =s "Part") || (role =s "DocumentFragment").

(** [traversalCtx.headingLevel || d] *)
Definition headingLevelOr (ctx : TraversalContext) (d : Z) : Z :=
  match headingLevel ctx with
  | Some l => if (l =? 0)%Z then d else l
  | None => d
  end.

Definition isGenericHeading (role : string) : bool :=
  (role =s "H") || (role =s "Hn") || (role =s "Title").

(** [mappedRole.slice(1)] *)
Definition dropFirst (s : string) : string :=
  match s with String _ r => r | EmptyString => EmptyString end.

(** The heading rule: the tag, and the level to announce when it is above
    six.  [None] leaves the tag of the default table in place. *)
Definition headingTag (mappedRole : string) (traversalCtx : TraversalContext)
  : option (string * option Z) :=
  let isExplicitHeading := explicitHeadingRegex mappedRole in
  if isExplicitHeading || isGenericHeading mappedRole then
    if roleIs (parentRole traversalCtx) "TH" || roleIs (parentRole traversalCtx) "TD"
    then Some ("p", None)
    else
      let level0 : option Z :=
        if mappedRole =s "Title" then Some 1%Z
        else if isExplicitHeading then parseInt (dropFirst mappedRole)
        else Some (headingLevelOr traversalCtx 2) in
      let level :=
        match level0 with
        | Some l => if (l <=? 0)%Z then headingLevelOr traversalCtx 2 else l
        | None => headingLevelOr traversalCtx 2
        end in
      if (level <=? 6)%Z then Some ("h" +:+ stringOfZ level, None)
      else Some ("p", Some level)
  else None.

Record Selection := mkSelection {
  selTag : string;
  selRole : string;
  selAriaLevel : option Z;
  selListStart : option Z;
  selListType : option string;
  selCtx : TraversalContext
}.

Definition notNoneNorDescription (listNumbering : string) : bool :=
  negb (listNumbering =s "None") && negb (listNumbering =s "Description").

(** Role mapping and tag choice for an element of type [sType] outside
    the MathML and HTML namespaces.  [newCtx] is the context for the
    children as prepared so far (the inherited one with the bounding box
    replaced). *)
Definition selectStandard (f : Fields) (k : Kids StructObj) (sType : string)
    (inheritedPageRef : option Ref) (traversalCtx newCtx : TraversalContext) : Selection :=
  let mappedRole := resolveRole sType (contextRoleMap context) (getNamespaceURI f) in
  let tag0 := mapRoleToTag mappedRole (parentRole traversalCtx) in
  let ctx1 :=
    if isGroupingRole mappedRole
    then withHeadingLevel newCtx (Some (headingLevelOr traversalCtx 1 + 1)%Z)
    else newCtx in
  let '(tag1, aria) :=
    match headingTag mappedRole traversalCtx with
    | Some (t, a) => (t, a)
    | None => (tag0, None)
    end in
  let '(tag2, ctx2, listStart, listType) :=
    if mappedRole =s "L" then
      let listNumbering := default "None" (getListNumbering (fA f) (fC f)) in
      let listHasLbl := hasLblChildren k "LI" in
      let tag :=
        if listNumbering =s "Description" then "dl"
        else if negb (listNumbering =s "None") then "ol" else "ul" in
      let ctx :=
        withListHasLbl (withListNumbering (withParentRole ctx1 (Some "L"))
                                          (Some listNumbering)) listHasLbl in
      if listHasLbl && notNoneNorDescription listNumbering then
        let labelText := getFirstListLabelText k inheritedPageRef in
        (tag, ctx, parseListStart labelText, parseListType labelText)
      else (tag, ctx, None, None)
    else if mappedRole =s "TOC" then
      (tag1, withListHasLbl (withParentRole ctx1 (Some "TOC")) (hasLblChildren k "TOCI"),
       None, None)
    else if mappedRole =s "LI" then
      ((if roleIs (listNumbering ctx1) "Description" then "div" else "li"),
       withParentRole ctx1 (Some "LI"), None, None)
    else if mappedRole =s "Lbl" then
      ((if roleIs (parentRole ctx1) "LI" then
          if roleIs (listNumbering ctx1) "Description" then "dt" else "span"
        else if roleIs (parentRole ctx1) "Form" then "label"
        else "span"),
       ctx1, None, None)
    else if mappedRole =s "LBody" then
      ((if roleIs (parentRole ctx1) "LI" then
          if roleIs (listNumbering ctx1) "Description" then "dd" else "div"
        else "div"),
       ctx1, None, None)
    else (tag1, withParentRole ctx1 (Some mappedRole), None, None) in
  let textPositionName := nameOf (getAttribute (fA f) "TextPosition") in
  let tag3 :=
    if roleIs textPositionName "Sup" then
      if negb (mappedRole =s "Sup") then "sup" else tag2
    else if roleIs textPositionName "Sub" then
      if negb (mappedRole =s "Sub") then "sub" else tag2
    else tag2 in
  mkSelection tag3 mappedRole aria listStart listType ctx2.

Definition mathMLNamespace : string := "http://www.w3.org/1998/Math/MathML".
Definition htmlNamespace : string := "http://www.w3.org/1999/xhtml".

Definition selectTag (f : Fields) (k : Kids StructObj) (sType : string)
    (inheritedPageRef : option Ref) (traversalCtx newCtx : TraversalContext) : Selection :=
  let namespaceURI := getNamespaceURI f in
  let isMathML := namespaceURI =s mathMLNamespace in
  let sel :=
    if isMathML then mkSelection sType sType None None None newCtx
    else if namespaceURI =s htmlNamespace
    then mkSelection (toLowerCase sType) sType None None None newCtx
    else selectStandard f k sType inheritedPageRef traversalCtx newCtx in
  mkSelection (selTag sel) (selRole sel) (selAriaLevel sel) (selListStart sel)
    (selListType sel)
    (withMathmlTokenContext (selCtx sel)
       (if isMathML then isMathMLTokenElement (selTag sel) else false)).

(** *** Attributes of the emitted element *)

Definition attr (name value : string) : string :=
  " " +:+ name +:+ "=" +:+ dq +:+ value +:+ dq.

Definition optAttr (name : string) (value : option string) : string :=
  match nonEmpty value with
  | Some v => attr name (escapeHtml (stringToPDFString P v))
  | None => EmptyString
  end.

Definition idAttr (ref : option Ref) (addr : N) (f : Fields) (idState : IdState)
  : string * IdState :=
  match nonEmpty (fID f) with
  | Some id => (attr "id" (escapeHtml (stringToPDFString P id)), idState)
  | None =>
      let '(generatedId, idState') := ensureGeneratedId ref addr idState in
      (attr "id" (escapeHtml generatedId), idState')
  end.

Definition appendStyle (style extra bare : string) : string :=
  if truthy style then style +:+ extra else bare.

Definition elementStyle (f : Fields) (sel : Selection) (traversalCtx : TraversalContext)
  : string :=
  let mappedRole := selRole sel in
  let style0 := getCSSProperties (fA f) in
  let style1 :=
    if ((mappedRole =s "L") || (mappedRole =s "TOC")) && listHasLbl (selCtx sel)
    then appendStyle style0 " list-style-type: none;" "list-style-type: none"
    else style0 in
  let style2 :=
    if (mappedRole =s "LBody") && listHasLbl traversalCtx
       && negb (roleIs (listNumbering traversalCtx) "Description")
    then appendStyle style1 " display: inline-block; vertical-align: top;"
                     "display:inline-block; vertical-align: top;"
    else style1 in
  if (mappedRole =s "Lbl") && roleIs (parentRole traversalCtx) "LI"
     && negb (roleIs (listNumbering traversalCtx) "Description")
  then appendStyle style2 " display: inline-block; vertical-align: top; margin-right: 0.4em;"
                   "display:inline-block; vertical-align: top; margin-right: 0.4em;"
  else style2.

Definition elementAttrs (ref : option Ref) (addr : N) (f : Fields) (sType : string)
    (sel : Selection) (traversalCtx : TraversalContext) (idState : IdState)
  : string * IdState :=
  let mappedRole := selRole sel in
  let tag := selTag sel in
  let isOrderedList := (mappedRole =s "L") && (tag =s "ol") in
  let '(idPart, idState') := idAttr ref addr f idState in
  let style := elementStyle f sel traversalCtx in
  (getHTMLAttributes (fA f)
   +:+ (if truthy mappedRole then attr "data-pdf-se-type" (escapeHtml mappedRole)
        else EmptyString)
   +:+ (if negb (sType =s mappedRole)
        then attr "data-pdf-se-type-original" (escapeHtml sType) else EmptyString)
   +:+ match selAriaLevel sel with
       | Some level => " role=" +:+ dq +:+ "heading" +:+ dq +:+ attr "aria-level" (stringOfZ level)
       | None => EmptyString
       end
   +:+ idPart
   +:+ optAttr "lang" (fLang f)
   +:+ optAttr "alt" (fAlt f)
   +:+ optAttr "title" (fT f)
   +:+ match nonEmpty (getPronunciationHint (fA f)) with
       | Some hint => attr "data-pdf-pronunciation" (escapeHtml hint)
       | None => EmptyString
       end
   +:+ (if isOrderedList then
          match getAttribute (fA f) "ContinuedFrom" with
          | Some continuedFrom => attr "data-continued-from" (escapeHtml (jsString continuedFrom))
          | None => EmptyString
          end
        else EmptyString)
   +:+ (if isOrderedList then
          match selListStart sel with
          | Some listStart =>
              if (1 <? listStart)%Z then attr "start" (stringOfZ listStart) else EmptyString
          | None => EmptyString
          end
        else EmptyString)
   +:+ (if isOrderedList then
          match selListType sel with
          | Some listType => attr "type" listType
          | None => EmptyString
          end
        else EmptyString)
   +:+ (if classesTruthy (fC f) then
          let classStr := join " " (extractClassNames (fC f)) in
          if truthy classStr then attr "class" (escapeHtml classStr) else EmptyString
        else EmptyString)
   +:+ (if truthy style then attr "style" (escapeHtml style) else EmptyString),
   idState').

Definition joinSupplements (af : AFResult) : string :=
  match supplements af with
  | [] => EmptyString
  | l => join nl l
  end.

Definition wrapExpansion (f : Fields) (content : string) : string :=
  match nonEmpty (fE f) with
  | Some expansionText =>
      "<abbr title=" +:+ dq +:+ escapeHtml (stringToPDFString P expansionText) +:+ dq
      +:+ ">" +:+ content +:+ "</abbr>"
  | None => content
  end.


Definition isVoidTag (tag : string) : bool :=
  (tag =s "img") || (tag =s "br") || (tag =s "hr") || (tag =s "input").

(** *** The recursive descent *)

(** How a child is rendered once page, context and identifier table are
    known. *)
Definition Renderer := option Ref -> TraversalContext -> IdState -> RenderedContent * IdState.

Record LoopAcc := mkAcc {
  accHtml : string;
  accText : string;
  lastChildHadActualText : bool;
  accIds : IdState
}.

(** One turn of the loop of [processChildren] over an array of children. *)
Definition childStep (inheritedPageRef : option Ref) (traversalCtx : TraversalContext)
    (acc : LoopAcc) (child : StructObj * Renderer) : LoopAcc :=
  let childInfo := getElementInfo (fst child) in
  let '(childRendered, ids') := snd child inheritedPageRef traversalCtx (accIds acc) in
  let childRole := fst childInfo in
  if roleIs (parentRole traversalCtx) "L" then
    if roleIs childRole "L" then
      mkAcc (accHtml acc +:+ "<li>" +:+ html childRendered +:+ "</li>")
            (accText acc +:+ text childRendered) (snd childInfo) ids'
    else
      mkAcc (accHtml acc +:+ html childRendered)
            (accText acc +:+ text childRendered) (snd childInfo) ids'
  else
    let space :=
      if shouldInsertInlineSpace (parentRole traversalCtx) childRole (accText acc)
           (text childRendered) (lastChildHadActualText acc) (snd childInfo)
           (rootTag childRendered)
      then " " else EmptyString in
    mkAcc (accHtml acc +:+ space +:+ html childRendered)
          (accText acc +:+ space +:+ text childRendered) (snd childInfo) ids'.

Definition processChildrenWith (render : bool -> StructObj -> Renderer)
    (children : Kids StructObj) : Renderer :=
  fun inheritedPageRef traversalCtx idState =>
    if kidsFalsy children then (emptyContent, idState)
    else
      match children with
      | KAbsent => (emptyContent, idState)
      | KOne c =>
          let '(childRendered, ids') :=
            render false c inheritedPageRef traversalCtx idState in
          (mkRendered (html childRendered) (text childRendered) None, ids')
      | KArray cs =>
          let reordered := reorderCaptionElements (map (fun c => (c, render true c)) cs) in
          let acc :=
            fold_left (childStep inheritedPageRef traversalCtx) reordered
                      (mkAcc EmptyString EmptyString false idState) in
          (mkRendered (accHtml acc) (accText acc) None, accIds acc)
      end.

Definition classStringForLink (classes : Classes) : string :=
  match classes with
  | ClassAbsent => EmptyString
  | ClassOne v => classValueName v
  | ClassArray vs => join " " (List.filter truthy (map classValueName vs))
  end.

(** [processLink], given the renderer of the element's own children. *)
Definition processLink (ref : option Ref) (addr : N) (f : Fields)
    (processChildren : Renderer) : Renderer :=
  fun inheritedPageRef traversalCtx idState =>
    let '(href, ids1) := linkHref P f idState in
    let mappedRole :=
      match structType f with
      | Some sType => resolveRole sType (contextRoleMap context) (getNamespaceURI f)
      | None => EmptyString
      end in
    let '(idPart, ids2) := idAttr ref addr f ids1 in
    let style := getCSSProperties (fA f) in
    let attrs :=
      getHTMLAttributes (fA f)
      +:+ (if truthy mappedRole then attr "data-pdf-se-type" (escapeHtml mappedRole)
           else EmptyString)
      +:+ match structType f with
          | Some sType =>
              if negb (sType =s mappedRole)
              then attr "data-pdf-se-type-original" (escapeHtml sType) else EmptyString
          | None => EmptyString
          end
      +:+ (if truthy href then attr "href" (escapeHtml href) else EmptyString)
      +:+ idPart
      +:+ optAttr "lang" (fLang f)
      +:+ optAttr "title" (fT f)
      +:+ match nonEmpty (getPronunciationHint (fA f)) with
          | Some hint => attr "data-pdf-pronunciation" (escapeHtml hint)
          | None => EmptyString
          end
      +:+ (if classesTruthy (fC f) then
             let classStr := classStringForLink (fC f) in
             if truthy classStr then attr "class" (escapeHtml classStr) else EmptyString
           else EmptyString)
      +:+ (if truthy style then attr "style" (escapeHtml style) else EmptyString) in
    let '(content, contentText, ids3) :=
      match nonEmpty (fActualText f) with
      | Some actualText =>
          let contentText := stringToPDFString P actualText in
          (escapeHtml contentText, contentText, ids2)
      | None =>
          let '(rendered, ids') := processChildren inheritedPageRef traversalCtx ids2 in
          (html rendered, text rendered, ids')
      end in
    (mkRendered ("<a" +:+ attrs +:+ ">" +:+ wrapExpansion f content +:+ "</a>")
                contentText (Some "a"),
     ids3).

(** The body of [processStructElement] for a child that is a dictionary,
    given the renderer of its children. *)
Definition processDict (ref : option Ref) (addr : N) (f : Fields) (k : Kids StructObj)
    (processChildren : Renderer) : Renderer :=
  fun inheritedPageRef0 traversalCtx idState =>
    let inheritedPageRef := orRef (fPg f) inheritedPageRef0 in
    if roleIs (fType f) "MCR" then (processMCR f inheritedPageRef traversalCtx, idState)
    else if roleIs (fType f) "OBJR" then (processOBJR P f inheritedPageRef, idState)
    else
      match replacement (fAF f) with
      | Some replacementHtml =>
          (mkRendered (replacementHtml +:+ joinSupplements (fAF f))
                      (extractTextFromHtml P replacementHtml) None,
           idState)
      | None =>
          let newCtx0 :=
            withBBox traversalCtx
              (match getBBox (fA f) with Some b => Some b | None => bbox traversalCtx end) in
          match structType f with
          | None =>
              let '(rendered, ids') :=
                if kidsFalsy k then (emptyContent, idState)
                else processChildren inheritedPageRef newCtx0 idState in
              (mkRendered (html rendered +:+ joinSupplements (fAF f)) (text rendered) None,
               ids')
          | Some sType =>
              let sel := selectTag f k sType inheritedPageRef traversalCtx newCtx0 in
              let mappedRole := selRole sel in
              let tag := selTag sel in
              if (mappedRole =s "Reference") && hasLinkChild k then
                processChildren inheritedPageRef
                  (withParentRole (selCtx sel) (parentRole traversalCtx)) idState
              else if mappedRole =s "Link" then
                processLink ref addr f processChildren inheritedPageRef (selCtx sel) idState
              else
                let '(attrs, ids1) :=
                  elementAttrs ref addr f sType sel traversalCtx idState in
                let isFigure := (mappedRole =s "Figure") || (mappedRole =s "Formula") in
                let ctxA :=
                  if isFigure then withPreferVector (selCtx sel) true else selCtx sel in
                let newCtx :=
                  match nonEmpty (fAlt f) with
                  | Some alt =>
                      let altStr := stringToPDFString P alt in
                      if isFigure && truthy altStr then withImageAlt ctxA (Some altStr)
                      else ctxA
                  | None => ctxA
                  end in
                let '(content0, contentText, ids2) :=
                  match nonEmpty (fActualText f) with
                  | Some actualText =>
                      let contentText := stringToPDFString P actualText in
                      (escapeHtml contentText, contentText, ids1)
                  | None =>
                      let '(rendered, ids') := processChildren inheritedPageRef newCtx ids1 in
                      (html rendered, text rendered, ids')
                  end in
                let content := wrapExpansion f content0 +:+ joinSupplements (fAF f) in
                if mappedRole =s "NonStruct" then
                  (mkRendered content contentText None, ids2)
                else if (mappedRole =s "Private") || (mappedRole =s "Artifact") then
                  (emptyContent, ids2)
                else if isVoidTag tag then
                  (mkRendered ("<" +:+ tag +:+ attrs +:+ "/>") EmptyString (Some tag), ids2)
                else
                  (mkRendered ("<" +:+ tag +:+ attrs +:+ ">" +:+ content
                               +:+ "</" +:+ tag +:+ ">")
                              contentText (Some tag),
                   ids2)
          end
      end.

(** [processStructElement].  [viaArray] tells whether the child was an
    element of an array (where it may be a reference) or the resolved
    value of a single [K]. *)
Fixpoint processStructElement (viaArray : bool) (child : StructObj) {struct child}
  : Renderer :=
  match child with
  | ONull | OOther => fun _ _ idState => (emptyContent, idState)
  | ONumber mcid =>
      fun inheritedPageRef traversalCtx idState =>
        match inheritedPageRef with
        | Some pgRef => (processMCID mcid pgRef traversalCtx, idState)
        | None =>
            (mkRendered ("<!-- MCID " +:+ stringOfZ mcid +:+ " (No Page) -->")
                        EmptyString None,
             idState)
        end
  | ODict ref addr f k =>
      processDict (if viaArray then ref else None) addr f k
        (processChildrenWith processStructElement k)
  end.

Definition processChildren (children : Kids StructObj) : Renderer :=
  processChildrenWith processStructElement children.

Definition initialIdState : IdState := mkIds ∅ ∅ 1.

Definition initialContext : TraversalContext :=
  mkCtx None None false None (Some 1%Z) None false false.

(** [traverseStructure]: the markup of the root's children, a string. *)
Definition traverseStructure : string :=
  match structTreeRoot context with
  | None => EmptyString
  | Some root =>
      html (fst (processChildren (rootKids root) None initialContext initialIdState))
  end.

End WithProvider.

End Traversal.

(* ===================================================================== *)
(** ** Text of markup ([extractTextFromHtml], [decodeHtmlEntities]) *)
(* ===================================================================== *)

Module HtmlText.
Import Js.

(** [/[0-9A-Fa-f]/] *)
Definition isHexDigit (c : ascii) : bool :=
  let n := code c in
  (isDigit c || (65 <=? n) && (n <=? 70) || (97 <=? n) && (n <=? 102))%N.

Definition hexDigitValue (c : ascii) : N :=
  let n := code c in
  if isDigit c then (n - 48)%N else if (n <=? 70)%N then (n - 55)%N else (n - 87)%N.

(** [parseInt(s, 16)] on a run of hexadecimal digits. *)
Definition hexValue (l : list ascii) : N :=
  fold_left (fun acc c => (acc * 16 + hexDigitValue c)%N) l 0%N.

(** [String.fromCodePoint(num)] for a code point that is a code unit of
    the model; [None] for a character beyond it. *)
Definition fromCodePoint (num : N) : option string :=
  if (num <=? 255)%N then Some (String (ascii_of_N num) EmptyString) else None.

(** The table [named] of [decodeHtmlEntities]. *)
Definition named (key : string) : option string :=
  if key =s "nbsp" then Some " "
  else if key =s "amp" then Some "&"
  else if key =s "lt" then Some "<"
  else if key =s "gt" then Some ">"
  else if key =s "quot" then Some dq
  else if key =s "apos" then Some "'"
  else None.

(** The group [(#x?[0-9A-Fa-f]+|[A-Za-z]+)] followed by a semicolon, at
    the start of [l] (the text after an ampersand): the characters of the
    group.  After [#x] nothing else can match, since [x] is no
    hexadecimal digit. *)
Definition entityBody (l : list ascii) : option (list ascii) :=
  match l with
  | "#"%char :: r =>
      let '(x, r') :=
        match r with
        | "x"%char :: r' => (["x"%char], r')
        | _ => ([], r)
        end in
      match takeWhile isHexDigit r', dropWhile isHexDigit r' with
      | (_ :: _) as ds, ";"%char :: _ => Some ("#"%char :: x ++ ds)
      | _, _ => None
      end
  | _ =>
      match takeWhile isLetter l, dropWhile isLetter l with
      | (_ :: _) as ls, ";"%char :: _ => Some ls
      | _, _ => None
      end
  end.

(** The callback of the replacement, for the group [body]; the match was
    [&body;].  [None]: the result holds a character beyond the model. *)
Definition entityText (body : list ascii) : option string :=
  let unchanged := Some ("&" +:+ str body +:+ ";") in
  match body with
  | "#"%char :: rest =>
      let isHex :=
        match rest with
        | c :: _ => Ascii.eqb c "x"%char || Ascii.eqb c "X"%char
        | [] => false
        end in
      let num : option N :=
        if isHex then Some (hexValue (tl rest))
        else Z.to_N <$> parseInt (str rest) in
      match num with
      | Some n => if (n <=? 1114111)%N then fromCodePoint n else unchanged
      | None => unchanged
      end
  | _ =>
      match named (toLowerCase (str body)) with
      | Some v => Some v
      | None => unchanged
      end
  end.

(** [text.replace(/&(...);/g, callback)]; [skip] counts the characters of
    a match that are still to be passed. *)
Fixpoint decodeFrom (skip : nat) (l : list ascii) : option string :=
  match l with
  | [] => Some EmptyString
  | c :: r =>
      match skip with
      | S k => decodeFrom k r
      | O =>
          let copy := String c <$> decodeFrom 0 r in
          if Ascii.eqb c "&"%char then
            match entityBody r with
            | Some body =>
                match entityText body, decodeFrom (S (length body)) r with
                | Some v, Some rest => Some (v +:+ rest)
                | _, _ => None
                end
            | None => copy
            end
          else copy
      end
  end.

Definition decodeHtmlEntities (text : string) : option string :=
  decodeFrom 0 (chars text).

(** [hay.indexOf(needle)], [None] for -1. *)
Fixpoint indexOf (needle hay : string) : option nat :=
  if startsWith needle hay then Some 0%nat
  else match hay with
       | EmptyString => None
       | String _ r => S <$> indexOf needle r
       end.

(** [s.slice(n)] *)
Fixpoint sliceFrom (n : nat) (s : string) : string :=
  match n, s with
  | O, _ => s
  | S k, String _ r => sliceFrom k r
  | S _, EmptyString => EmptyString
  end.

(** [tagText.split(/\s+/)[0]] for a trimmed, non-empty [tagText]. *)
Definition firstWord (tagText : string) : string :=
  str (takeWhile (fun c => negb (isSpace c)) (chars tagText)).

(** At a [<] that starts [s]: how many characters the loop passes before
    it looks at a character again; [None] when it breaks. *)
Definition tagSkip (s : string) : option nat :=
  if startsWith "<!--" s then
    (fun e => (4 + e + 3)%nat) <$> indexOf "-->" (sliceFrom 4 s)
  else
    match indexOf ">" (sliceFrom 1 s) with
    | None => None
    | Some j =>
        let tagText := toLowerCase (trim (substring 1 j s)) in
        if startsWith "script" tagText || startsWith "style" tagText then
          let closeTag := "</" +:+ firstWord tagText +:+ ">" in
          (fun m => (j + 2 + m + String.length closeTag)%nat)
            <$> indexOf closeTag (toLowerCase (sliceFrom (j + 2) s))
        else Some (j + 2)%nat
    end.

(** The loop of [extractTextFromHtml]: the characters outside tags,
    comments and script and style elements. *)
Fixpoint stripFrom (skip : nat) (s : string) : string :=
  match s with
  | EmptyString => EmptyString
  | String ch r =>
      match skip with
      | S k => stripFrom k r
      | O =>
          if Ascii.eqb ch "<"%char then
            match tagSkip s with
            | Some n => stripFrom (Nat.pred n) r
            | None => EmptyString
            end
          else String ch (stripFrom 0 r)
      end
  end.

Definition extractTextFromHtml (html : string) : option string :=
  if negb (truthy html) then Some EmptyString
  else decodeHtmlEntities (stripFrom 0 html).

End HtmlText.

(* ===================================================================== *)
(** ** Associated files ([src/associated_files.ts]) *)
(* ===================================================================== *)

Module AssociatedFiles.
Import Js Roles Extractor Traversal.

Inductive AFRelationship := Alternative | Supplement | Ignore.

Inductive Place := Head | Inline | After.

(** The outcome of processing one associated file (the interface
    [AFResult] of the source). *)
Record FileResult := mkFile {
  content : string;
  relationship : AFRelationship;
  place : Place
}.

(** [url.split('.').pop()?.toLowerCase()] *)
Definition extension (url : string) : string :=
  toLowerCase (List.last (split "." url) EmptyString).

Definition processURLReference (url : string) (relationship : AFRelationship)
    (isHead : bool) : option FileResult :=
  let ext := extension url in
  let result tag := Some (mkFile tag relationship (if isHead then Head else Inline)) in
  if ext =s "css" then result ("<style>@import url(" +:+ url +:+ ");</style>")
  else if ext =s "js" then result ("<script src=" +:+ dq +:+ url +:+ dq +:+ "></script>")
  else if inList ext ["jpg"; "jpeg"; "png"; "gif"; "svg"]
  then result ("<img src=" +:+ dq +:+ url +:+ dq +:+ " />")
  else if inList ext ["html"; "htm"]
  then result ("<link rel=" +:+ dq +:+ "import" +:+ dq +:+ " href=" +:+ dq +:+ url +:+ dq
               +:+ " />")
  else None.

(** One turn of the loop of [getStructureAssociatedFiles], on the result
    of [processAssociatedFile] for the file. *)
Definition collectFile (acc : AFResult) (result : option FileResult) : AFResult :=
  match result with
  | None => acc
  | Some r =>
      match relationship r with
      | Alternative =>
          match replacement acc with
          | None => mkAF (Some (content r)) (supplements acc)
          | Some _ => acc
          end
      | Supplement => mkAF (replacement acc) (supplements acc ++ [content r])
      | Ignore => acc
      end
  end.

(** [getStructureAssociatedFiles], given what [processAssociatedFile]
    yields for each entry of [AF]. *)
Definition getStructureAssociatedFiles {A} (processAssociatedFile : A -> option FileResult)
    (afs : list A) : AFResult :=
  fold_left (fun acc af => collectFile acc (processAssociatedFile af)) afs noAF.

End AssociatedFiles.

(* ===================================================================== *)
(** ** Vocabulary of the statements *)
(* ===================================================================== *)

Module Props.
Import Js Roles AttributeMapper Extractor Traversal.

(** Why the loop has stopped in state [st]. *)
Definition stopped (roleMap : gmap string string) (st : LoopState) : Prop :=
  isStandardType (current st) = true
  ∨ roleMap !! current st = None
  ∨ roleMap !! current st = Some EmptyString
  ∨ current st ∈ seen st.

(** What every iteration preserves: the visited names are keys of the
    role map, and each replacement step visited a fresh key. *)
Definition loopInv (roleMap : gmap string string) (st : LoopState) : Prop :=
  seen st ⊆ dom roleMap ∧ steps st ≤ size (seen st).

(** The value of the last write to [k] in a sequence of writes, starting
    from what was there before. *)
Fixpoint lastWriteFrom (k : string) (ws : Writes) (before : option string)
  : option string :=
  match ws with
  | [] => before
  | (k', v) :: r => lastWriteFrom k r (if k' =s k then Some v else before)
  end.

Definition lastWrite (k : string) (ws : Writes) : option string :=
  lastWriteFrom k ws None.

(** [op] opens a marked-content region with dictionary-like properties
    that give the numeric content id [mcid] and, among [Lang],
    [ActualText], [Alt] and [E], the non-empty record [props]. *)
Definition declaresProps (OPS : OpsTable) (op : PDFOperator) (mcid : Z)
    (props : MarkedContentProps) : Prop :=
  fn op = beginMarkedContentProps OPS
  ∧ ∃ d, nth_error (args op) 1 = Some (ArgDict d)
         ∧ dictMcid d = Some mcid
         ∧ contentPropsOf d = props
         ∧ hasKeys props = true.

Definition declaresFor (OPS : OpsTable) (mcid : Z) (op : PDFOperator) : Prop :=
  ∃ props, declaresProps OPS op mcid props.

(** *** Markup that document strings cannot break

    A scan of the markup with three states: in text, inside a tag, and
    inside a double-quoted attribute value.  A tag is opened by [<] in
    text and closed by [>] outside a quoted value; a quoted value runs
    from one double quote to the next.  The scan fails on a [<], [>],
    double quote or apostrophe anywhere else. *)
Inductive LexState := InText | InTag | InQuote.

Definition isLt (c : ascii) : bool := Ascii.eqb c "<"%char.
Definition isGt (c : ascii) : bool := Ascii.eqb c ">"%char.
Definition isDq (c : ascii) : bool := Ascii.eqb c (chr 34).
Definition isApos (c : ascii) : bool := Ascii.eqb c (chr 39).

Definition special (c : ascii) : bool := isLt c || isGt c || isDq c || isApos c.

Definition lexStep (st : LexState) (c : ascii) : option LexState :=
  if negb (special c) then Some st
  else
    match st with
    | InText => if isLt c then Some InTag else None
    | InTag => if isDq c then Some InQuote else if isGt c then Some InText else None
    | InQuote => if isDq c then Some InTag else None
    end.

Fixpoint lex (st : LexState) (s : string) : option LexState :=
  match s with
  | EmptyString => Some st
  | String c r =>
      match lexStep st c with
      | Some st' => lex st' r
      | None => None
      end
  end.

(** Markup: the scan goes from text back to text. *)
Definition wellTagged (s : string) : Prop := lex InText s = Some InText.

(** A run of attributes: the scan goes from inside a tag back to it. *)
Definition attributeRun (s : string) : Prop := lex InTag s = Some InTag.

(** A string without any of the four characters. *)
Definition neutral (s : string) : bool := forallb (fun c => negb (special c)) (chars s).





(** What [escapeHtml] does to one character. *)
Definition escapeChar (c : ascii) : string :=
  if Ascii.eqb c "&"%char then "&amp;"
  else if Ascii.eqb c "<"%char then "&lt;"
  else if Ascii.eqb c ">"%char then "&gt;"
  else if Ascii.eqb c (chr 34) then "&quot;"
  else if Ascii.eqb c (chr 39) then "&#039;"
  else String c EmptyString.




(** The first defined value of a list of candidates. *)
Fixpoint firstSome (l : list (option string)) : option string :=
  match l with
  | [] => None
  | Some v :: _ => Some v
  | None :: r => firstSome r
  end.

(** *** Vocabulary of the further properties *)

(** A chain of role-map entries from [a]: through the names [via], none of
    them empty or a standard type, to the standard type [target]. *)
Fixpoint chain (roleMap : gmap string string) (a : string) (via : list string)
    (target : string) : Prop :=
  match via with
  | [] => roleMap !! a = Some target ∧ isStandardType target = true
  | b :: rest =>
      roleMap !! a = Some b ∧ truthy b = true ∧ isStandardType b = false
      ∧ chain roleMap b rest target
  end.





(** [op] is one of the three operators that open or close a
    marked-content region. *)
Definition isRegionOperator (OPS : OpsTable) (op : PDFOperator) : bool :=
  ((fn op =? beginMarkedContentProps OPS) || (fn op =? beginMarkedContent OPS)
   || (fn op =? endMarkedContent OPS))%Z.

(** [op] opens a region for the content id [mcid]: the second argument
    is the number itself, or an object that gives it. *)
Definition opensRegion (OPS : OpsTable) (op : PDFOperator) (mcid : Z) : Prop :=
  fn op = beginMarkedContentProps OPS
  ∧ (nth_error (args op) 1 = Some (ArgNum mcid)
     ∨ nth_error (args op) 1 = Some (ArgPlain (Some mcid))
     ∨ ∃ d, nth_error (args op) 1 = Some (ArgDict d) ∧ dictMcid d = Some mcid).

(** [op] closes the innermost region. *)
Definition closesRegion (OPS : OpsTable) (op : PDFOperator) : Prop :=
  fn op ≠ beginMarkedContentProps OPS ∧ fn op ≠ beginMarkedContent OPS
  ∧ fn op = endMarkedContent OPS.

(** A text item that carries the text [text] rather than a region
    boundary. *)
Definition isTextRun (item : TextItem) (text : string) : Prop :=
  itemType item ≠ Some "beginMarkedContentProps"
  ∧ itemType item ≠ Some "beginMarkedContent"
  ∧ itemType item ≠ Some "endMarkedContent"
  ∧ itemStr item = Some text ∧ truthy text = true.

(** What follows the text of an item: a newline at the end of a line. *)
Definition textSuffix (item : TextItem) : string :=
  if hasEOL item then nl else EmptyString.

(** The identifiers allocated in [ids] are the same in [ids']. *)
Definition idsKept (ids ids' : IdState) : Prop :=
  ∀ ref addr g, lookupGeneratedId ref addr ids = Some g →
                lookupGeneratedId ref addr ids' = Some g.

(** The provider's link resolution keeps the identifiers allocated so far. *)
Definition keepsIds (P : Provider) : Prop :=
  ∀ f ids, idsKept ids (snd (linkHref P f ids)).

(** A renderer that keeps the identifiers allocated so far. *)
Definition keepingRenderer (r : Renderer) : Prop :=
  ∀ pg ctx ids, idsKept ids (snd (r pg ctx ids)).




(** The text between [<] and [>] of a tag that [extractTextFromHtml]
    passes as a whole: it holds no [>], does not open a comment, and does
    not name a script or style element. *)
Definition ordinaryTag (t : string) : bool :=
  forallb (fun c => negb (Ascii.eqb c ">"%char)) (chars t)
  && negb (startsWith "!--" t)
  && negb (startsWith "script" (toLowerCase (trim t))
           || startsWith "style" (toLowerCase (trim t))).

Definition isAlternative (r : AssociatedFiles.FileResult) : bool :=
  match AssociatedFiles.relationship r with
  | AssociatedFiles.Alternative => true
  | _ => false
  end.

Definition isSupplement (r : AssociatedFiles.FileResult) : bool :=
  match AssociatedFiles.relationship r with
  | AssociatedFiles.Supplement => true
  | _ => false
  end.

(** The results that exist, in the order of the files. *)
Definition results {A} (process : A -> option AssociatedFiles.FileResult) (afs : list A)
  : list AssociatedFiles.FileResult :=
  flat_map (fun af => match process af with Some r => [r] | None => [] end) afs.

End Props.

(* ===================================================================== *)
(** ** Sample documents *)
(* ===================================================================== *)

Module Samples.
Import Js Roles AttributeMapper Extractor Traversal.

(** The operator codes of the provider's table that the extractor uses. *)
Definition providerOPS : OpsTable := mkOps 69 70 71 66 85 88 86 87.

(** A provider for documents without links, widgets, images or vector
    content, whose strings need no decoding. *)
Definition plainProvider : Provider :=
  mkProvider providerOPS (fun s => s) (fun _ ids => (EmptyString, ids))
             (fun _ _ => emptyContent) (fun _ _ => (EmptyString, None, None))
             (fun _ => EmptyString) (fun _ _ => EmptyString) (fun s => s).

Definition noFields : Fields :=
  mkFields None None None None AttrAbsent ClassAbsent None None None None None None None noAF.

(** A structure element of type [sType], with no other entry than [K]. *)
Definition typed (sType : string) : Fields :=
  mkFields None (Some sType) None None AttrAbsent ClassAbsent
           None None None None None None None noAF.

Definition elem (n : Z) (sType : string) (kids : list StructObj) : StructObj :=
  ODict (Some (mkRef n 0)) (Z.to_N n) (typed sType) (KArray kids).

Definition emptyPage : PDFPage := mkPage [] [].

Definition document (rm : option (gmap string string)) (kids : list StructObj) : PDFContext :=
  mkContext (Some (mkRoot rm None (KArray kids))) (fun _ => 0%Z) (fun _ => emptyPage).

Definition render (ctx : PDFContext) : string := traverseStructure plainProvider ctx.

Definition referenceOverLink : StructObj := elem 1 "Reference" [elem 2 "Link" []].

(** [inner] below [n] nested sections, numbered from the outside. *)
Fixpoint nestSect (n : nat) (next : Z) (inner : StructObj) : StructObj :=
  match n with
  | O => inner
  | S m => elem next "Sect" [nestSect m (next + 1) inner]
  end.


(** A string with every character that [escapeHtml] replaces. *)
Definition hostile : string := "<script>alert('x')</script>" +:+ dq +:+ "&".

(** A paragraph whose identifier, language, alternate description, title,
    class, expansion text and actual text are all the hostile string. *)
Definition hostileParagraph : StructObj :=
  ODict (Some (mkRef 1 0)) 1
        (mkFields None (Some "P") None None AttrAbsent (ClassOne (ClassName hostile))
                  (Some hostile) (Some hostile) (Some hostile) (Some hostile)
                  (Some hostile) (Some hostile) None noAF)
        KAbsent.

(** A string between double quotes. *)
Definition q (s : string) : string := dq +:+ s +:+ dq.

Definition pageRef : Ref := mkRef 100 0.

(** A paragraph on the page [pageRef] whose only child is the content id
    [mcid]. *)
Definition paragraphOwning (mcid : Z) : StructObj :=
  ODict (Some (mkRef 1 0)) 1
        (mkFields None (Some "P") None (Some pageRef) AttrAbsent ClassAbsent
                  None None None None None None None noAF)
        (KArray [ONumber mcid]).

Definition onPage (page : PDFPage) (kids : list StructObj) : PDFContext :=
  mkContext (Some (mkRoot None None (KArray kids))) (fun _ => 0%Z) (fun _ => page).

(** A page whose stream opens and closes a region for content id 0 that
    holds nothing and carries an alternate description. *)
Definition altOnlyPage : PDFPage :=
  mkPage [] [ mkOp 70 [ArgStr "Figure"; ArgDict [("MCID", VNum 0); ("Alt", VStr "logo")]];
              mkOp 71 [] ].

(** A page stream that declares content id 0 twice, with different
    languages. *)
Definition beginProps (mcid : Z) (lang : string) : PDFOperator :=
  mkOp 70 [ArgStr "Span"; ArgDict [("MCID", VNum mcid); ("Lang", VStr lang)]].
Definition endRegion : PDFOperator := mkOp 71 [].
Definition declaredTwice : list PDFOperator :=
  [beginProps 0 "en"; endRegion; beginProps 0 "fr"; endRegion].

(** *** Inputs of the further properties *)

(** An operator that opens a region for the content id [mcid], two path
    operators, and extractors inside a region. *)
Definition openRegion (mcid : Z) : PDFOperator := mkOp 70 [ArgStr "P"; ArgNum mcid].
Definition moveTo : PDFOperator := mkOp 13 [ArgNum 0; ArgNum 0].
Definition fill : PDFOperator := mkOp 22 [].

Definition insideRegion (mcid : Z) : ContentExtractor :=
  mkExtractor ∅ ∅ ∅ ∅ ∅ ∅ [[mcid]].

(** Inside a region for content id 2 that has no text yet, after the
    region for content id 1 received the text [before]. *)
Definition afterText (before : string) : ContentExtractor :=
  mkExtractor (<[ 1%Z := before ]> ∅) {[ 1%Z ]} {[ 1%Z ]} ∅ ∅ ∅ [[2%Z]].

Definition textRun (s : string) : TextItem := mkItem None None (Some s) false.

(** A page whose text content holds one run inside the region for the
    content id 0. *)
Definition helloPage : PDFPage :=
  mkPage [ mkItem (Some "beginMarkedContentProps") (Some "p1R_mc0") None false;
           textRun "a < b";
           mkItem (Some "endMarkedContent") None None false ]
         [ openRegion 0; endRegion ].



End Samples.

(* ===================================================================== *)
(** * Theorems *)
(* ===================================================================== *)

Section RoleResolverFacts.
Import Js Roles.

Example resolve_custom :
  resolveRole "Chapter" (Some (<["Chapter" := "Sect"]> ∅)) "" = "Sect".
Proof. vm_compute. reflexivity. Qed.

Example resolve_cycle :
  resolveRole "A" (Some (<["A" := "B"]> (<["B" := "A"]> ∅))) "" = "A".
Proof. vm_compute. reflexivity. Qed.

Example resolve_H7_mapped :
  resolveRole "H7" (Some (<["H7" := "P"]> ∅)) "" = "P".
Proof. vm_compute. reflexivity. Qed.

End RoleResolverFacts.

Section RoleResolverTermination.
Import Js Roles Props.

Lemma loopInv_init roleMap role : loopInv roleMap (initLoop role).
Proof. split; simpl; [set_solver | lia]. Qed.

Lemma iteration_break roleMap st st' :
  loopInv roleMap st →
  loopIteration roleMap st = Break st' →
  steps st' ≤ size roleMap ∧ stopped roleMap st'.
Proof.
  intros [Hsub Hsteps] Hit.
  assert (Hsz : size (seen st) ≤ size roleMap).
  { rewrite <- (size_dom (D := gset string)). by apply subseteq_size. }
  unfold loopIteration in Hit.
  destruct (roleMap !! current st) as [next|] eqn:Hlk.
  - destruct (decide (current st ∈ seen st)) as [Hin|Hnin].
    + injection Hit as <-. split; [lia | unfold stopped; tauto].
    + assert (Hfresh : S (size (seen st)) ≤ size roleMap).
      { rewrite <- (size_dom (D := gset string)).
        replace (S (size (seen st))) with (size ({[current st]} ∪ seen st)).
        - apply subseteq_size. apply union_subseteq. split; [|done].
          apply singleton_subseteq_l, elem_of_dom. eauto.
        - rewrite size_union by set_solver. by rewrite size_singleton. }
      destruct (negb (truthy next)) eqn:Hnext.
      * injection Hit as <-. simpl. split; [lia|].
        unfold stopped; simpl. right; right; right. set_solver.
      * destruct (isStandardType next) eqn:Hstd; [|discriminate].
        injection Hit as <-. simpl. split; [lia|].
        unfold stopped; simpl. by left.
  - injection Hit as <-. split; [lia | unfold stopped; tauto].
Qed.

Lemma iteration_continue roleMap st st' :
  loopInv roleMap st →
  loopIteration roleMap st = Continue st' →
  loopInv roleMap st' ∧ size (seen st') = S (size (seen st)).
Proof.
  intros [Hsub Hsteps] Hit. unfold loopIteration in Hit.
  destruct (roleMap !! current st) as [next|] eqn:Hlk; [|discriminate].
  destruct (decide (current st ∈ seen st)) as [Hin|Hnin]; [discriminate|].
  destruct (negb (truthy next)); [discriminate|].
  destruct (isStandardType next); [discriminate|].
  injection Hit as <-.
  assert (Hsize : size ({[current st]} ∪ seen st) = S (size (seen st))).
  { rewrite size_union by set_solver. by rewrite size_singleton. }
  unfold loopInv. cbn [seen steps]. rewrite Hsize. repeat split.
  - apply union_subseteq. split; [|done].
    apply singleton_subseteq_l, elem_of_dom. eauto.
  - lia.
Qed.

Lemma whileLoop_halts roleMap fuel st :
  loopInv roleMap st →
  size roleMap < fuel + size (seen st) →
  ∃ st', whileLoop fuel roleMap st = Some st'
         ∧ steps st' ≤ size roleMap ∧ stopped roleMap st'.
Proof.
  revert st. induction fuel as [|fuel IH]; intros st Hinv Hfuel.
  - exfalso. destruct Hinv as [Hsub _].
    apply subseteq_size in Hsub. rewrite size_dom in Hsub. lia.
  - simpl. destruct (loopIteration roleMap st) as [s|s] eqn:Hit.
    + destruct (iteration_continue _ _ _ Hinv Hit) as [Hinv' Hsz].
      apply IH; [done | lia].
    + exists s. split; [done|]. by eapply iteration_break.
Qed.

(** More fuel never changes the outcome of a run that halted. *)
Lemma whileLoop_fuel_mono roleMap fuel fuel' st st' :
  whileLoop fuel roleMap st = Some st' → fuel ≤ fuel' →
  whileLoop fuel' roleMap st = Some st'.
Proof.
  revert fuel' st. induction fuel as [|fuel IH]; intros fuel' st Hrun Hle.
  - discriminate.
  - destruct fuel' as [|fuel']; [lia|]. simpl in *.
    destruct (loopIteration roleMap st); [|done].
    apply IH; [done | lia].
Qed.

(** C8.  For every role map with N entries, every type name and every
    namespace, the run of [resolveRole] halts: it yields a final state
    within the fuel N + 1 (N loop bodies and the last test of the loop
    condition), that state is the one [resolveRole] returns, it was reached
    after at most N replacement steps, and the loop stopped on a standard
    type, on a missing (or empty) mapping, or on a name already visited.
    Cyclic role maps are included: nothing is assumed of [roleMap]. *)
Theorem resolveRole_halts_within_size (role : string)
    (roleMap : gmap string string) (namespaceURI : string) :
  ∃ st, resolveRoleRun role (Some roleMap) namespaceURI = Some st
        ∧ resolveRole role (Some roleMap) namespaceURI = current st
        ∧ steps st ≤ size roleMap
        ∧ (stopped roleMap st ∨ role = EmptyString).
Proof.
  unfold resolveRole, resolveRoleRun.
  destruct (negb (truthy role)) eqn:Hrole.
  { exists (initLoop role). repeat split; simpl; [lia|].
    right. by destruct role. }
  destruct (isPdfStandardNamespace namespaceURI && isStandardType role) eqn:Hstd.
  { exists (initLoop role). repeat split; simpl; [lia|].
    left. left. simpl. by apply andb_prop in Hstd as [_ ?]. }
  destruct (whileLoop_halts roleMap (S (size roleMap)) (initLoop role))
    as (st & Hrun & Hsteps & Hstop).
  - apply loopInv_init.
  - simpl. lia.
  - exists st. rewrite Hrun. tauto.
Qed.

(** A role map whose two entries form a cycle: the run halts after two
    replacement steps, back on the name it started from. *)
Example resolve_cycle_run :
  (λ r, (current <$> r, steps <$> r))
    (resolveRoleRun "A" (Some (<["A" := "B"]> (<["B" := "A"]> ∅))) "")
  = (Some "A", Some 2).
Proof. vm_compute. reflexivity. Qed.

End RoleResolverTermination.

Section RoleResolverIdentity.
Import Js Roles.

(** Members of the standard-type set are returned unchanged in a default
    namespace, whatever the role map holds. *)
Lemma resolveRole_standard_unchanged (role : string)
    (roleMap : option (gmap string string)) (namespaceURI : string) :
  isPdfStandardNamespace namespaceURI = true →
  isStandardType role = true →
  resolveRole role roleMap namespaceURI = role.
Proof.
  intros Hns Hstd. unfold resolveRole, resolveRoleRun.
  rewrite Hns, Hstd. simpl. by destruct (negb (truthy role)).
Qed.

Lemma explicitHeadingRegex_rejects_digits (role : string) :
  explicitHeadingRegex role = true →
  ∃ rest, role = String "H"%char (String "\"%char rest).
Proof.
  destruct role as [|a [|b rest]]; simpl; try discriminate.
  - destruct a as [[] [] [] [] [] [] [] []]; discriminate.
  - destruct a as [[] [] [] [] [] [] [] []]; try discriminate.
    destruct b as [[] [] [] [] [] [] [] []]; try discriminate.
    eauto.
Qed.

(** C4.  The explicit heading names above H6 are not recognised as
    standard types: [isStandardType] tests them with a pattern that asks
    for a backslash after the H.  With a role map that maps H7, the
    resolver follows the mapping instead of returning H7 unchanged, in the
    default namespace. *)
Theorem resolveRole_H7_follows_role_map :
  isPdfStandardNamespace "" = true
  ∧ isStandardType "H7" = false
  ∧ isStandardType "H9" = false
  ∧ resolveRole "H7" (Some (<["H7" := "P"]> ∅)) "" = "P"
  ∧ resolveRole "H9" (Some (<["H9" := "Span"]> ∅)) "http://iso.org/pdf2/ssn" = "Span".
Proof. vm_compute. repeat split; reflexivity. Qed.

End RoleResolverIdentity.



Section HelperExamples.
Import Js Traversal.

Example escapeHtml_five :
  escapeHtml ("a<b>&" +:+ dq +:+ "'") = "a&lt;b&gt;&amp;&quot;&#039;".
Proof. vm_compute. reflexivity. Qed.

Example scaleDimension_72_36 : scaleDimension 72 = 96%Z ∧ scaleDimension 36 = 48%Z.
Proof. vm_compute. split; reflexivity. Qed.

Example list_label_roman :
  parseListType (Some "iv.") = Some "i" ∧ parseListStart (Some "3.") = Some 3%Z.
Proof. vm_compute. split; reflexivity. Qed.

End HelperExamples.

Section AttributeCascade.
Import Js AttributeMapper Props.

Lemma mapGet_mapSet (k k' v : string) (m : JsMap) :
  mapGet k (mapSet k' v m) = if k' =s k then Some v else mapGet k m.
Proof.
  induction m as [|[k0 v0] m IH]; simpl.
  - reflexivity.
  - destruct (k0 =s k') eqn:E0; simpl.
    + apply String.eqb_eq in E0. subst k0.
      destruct (k' =s k); reflexivity.
    + destruct (k0 =s k) eqn:E1.
      * apply String.eqb_eq in E1. subst k0. rewrite String.eqb_sym, E0. reflexivity.
      * exact IH.
Qed.

Lemma mapGet_applyWrites (k : string) (ws : Writes) (m : JsMap) :
  mapGet k (applyWrites ws m) = lastWriteFrom k ws (mapGet k m).
Proof.
  unfold applyWrites. revert m.
  induction ws as [|[k' v] ws IH]; intros m; simpl.
  - reflexivity.
  - rewrite IH, mapGet_mapSet. reflexivity.
Qed.

Lemma lastWriteFrom_app (k : string) (a b : Writes) (before : option string) :
  lastWriteFrom k (a ++ b) before = lastWriteFrom k b (lastWriteFrom k a before).
Proof.
  revert before. induction a as [|[k' v] a IH]; intros before; simpl; [reflexivity|].
  apply IH.
Qed.

Lemma lastWriteFrom_lastWrite (k : string) (ws : Writes) (before : option string) :
  lastWriteFrom k ws before = firstSome [lastWrite k ws; before].
Proof.
  unfold lastWrite. revert before.
  induction ws as [|[k' v] ws IH]; intros before; simpl.
  - destruct before; reflexivity.
  - rewrite IH, (IH (if k' =s k then Some v else None)).
    destruct (k' =s k), (lastWriteFrom k ws None), before; reflexivity.
Qed.

(** C6, as the code has it.  In both cascades the value that a key ends
    with is the last write of the latest category that writes it, for
    every key - [display] is no exception: [List], [Table], [Layout],
    [CSS] for the style, and [List], [Table], [Layout], [HTML], [CSS],
    [ARIA] for the HTML attributes.  In particular a [Layout] text
    alignment of [Center] and a [CSS] one of [Right] give
    [text-align: right], in whichever order the two dictionaries stand. *)
Theorem cascade_later_category_wins (attributes : PDFAttributes) (k : string) :
  mapGet k (cssMap attributes)
  = firstSome [ lastWrite k (cssCSSWrites attributes);
                lastWrite k (cssLayoutWrites attributes);
                lastWrite k (cssTableWrites attributes);
                lastWrite k (cssListWrites attributes) ]
  ∧ mapGet k (htmlAttrMap attributes)
    = firstSome [ lastWrite k (htmlARIAWrites attributes);
                  lastWrite k (htmlCSSWrites attributes);
                  lastWrite k (htmlHTMLWrites attributes);
                  lastWrite k (htmlLayoutWrites attributes);
                  lastWrite k (htmlTableWrites attributes);
                  lastWrite k (htmlListWrites attributes) ]
  ∧ getCSSProperties
      (AttrArray [ Some [("O", VName "Layout"); ("TextAlign", VName "Center")];
                   Some [("O", VName "CSS-1.00"); ("TextAlign", VName "Right")] ])
    = "text-align: right; "
  ∧ getCSSProperties
      (AttrArray [ Some [("O", VName "CSS-1.00"); ("TextAlign", VName "Right")];
                   Some [("O", VName "Layout"); ("TextAlign", VName "Center")] ])
    = "text-align: right; ".
Proof.
  split; [|split; [|split; vm_compute; reflexivity]].
  - unfold cssMap. rewrite !mapGet_applyWrites. simpl mapGet.
    rewrite (lastWriteFrom_lastWrite k (cssCSSWrites attributes)).
    rewrite (lastWriteFrom_lastWrite k (cssLayoutWrites attributes)).
    rewrite (lastWriteFrom_lastWrite k (cssTableWrites attributes)).
    rewrite (lastWriteFrom_lastWrite k (cssListWrites attributes)).
    destruct (lastWrite k (cssCSSWrites attributes)),
             (lastWrite k (cssLayoutWrites attributes)),
             (lastWrite k (cssTableWrites attributes)),
             (lastWrite k (cssListWrites attributes)); reflexivity.
  - unfold htmlAttrMap. rewrite !mapGet_applyWrites. simpl mapGet.
    rewrite (lastWriteFrom_lastWrite k (htmlARIAWrites attributes)).
    rewrite (lastWriteFrom_lastWrite k (htmlCSSWrites attributes)).
    rewrite (lastWriteFrom_lastWrite k (htmlHTMLWrites attributes)).
    rewrite (lastWriteFrom_lastWrite k (htmlLayoutWrites attributes)).
    rewrite (lastWriteFrom_lastWrite k (htmlTableWrites attributes)).
    rewrite (lastWriteFrom_lastWrite k (htmlListWrites attributes)).
    destruct (lastWrite k (htmlARIAWrites attributes)),
             (lastWrite k (htmlCSSWrites attributes)),
             (lastWrite k (htmlHTMLWrites attributes)),
             (lastWrite k (htmlLayoutWrites attributes)),
             (lastWrite k (htmlTableWrites attributes)),
             (lastWrite k (htmlListWrites attributes)); reflexivity.
Qed.

(** The margin-implying property has set [display] to [block]; the later
    [Placement] of [Inline] changes it to [inline], in a later category
    and within one dictionary alike. *)
Lemma display_downgraded_after_margin :
  let later :=
    AttrArray [ Some [("O", VName "Layout"); ("SpaceBefore", VNum 10)];
                Some [("O", VName "CSS-1.00"); ("Placement", VName "Inline")] ] in
  let same :=
    AttrOne (Some [("O", VName "Layout"); ("SpaceBefore", VNum 10);
                   ("Placement", VName "Inline")]) in
  In ("display", "block") (cssLayoutWrites later)
  ∧ mapGet "display" (cssMap later) = Some "inline"
  ∧ getCSSProperties later = "display: inline; margin-top: 10px; "
  ∧ In ("display", "block") (cssLayoutWrites same)
  ∧ getCSSProperties same = "display: inline; margin-top: 10px; ".
Proof.
  vm_compute. repeat split; try reflexivity; left; reflexivity.
Qed.

End AttributeCascade.

Section MarkedContentProperties.
Import Js AttributeMapper Extractor Props Samples.

Variable OPS : OpsTable.

Lemma step_declaring (st : list (list Z) * ContentExtractor) (op : PDFOperator)
    (mcid : Z) (props : MarkedContentProps) :
  declaresProps OPS op mcid props →
  mcidToProps (snd (operatorStep OPS st op)) !! mcid = Some props.
Proof.
  intros (Hfn & d & Harg & Hmcid & Hprops & Hkeys).
  destruct st as [stack x]. unfold operatorStep.
  rewrite Hfn, Z.eqb_refl, Harg, Hmcid, Hprops, Hkeys. simpl.
  apply lookup_insert_eq.
Qed.

Lemma step_other (st : list (list Z) * ContentExtractor) (op : PDFOperator) (mcid : Z) :
  ¬ declaresFor OPS mcid op →
  mcidToProps (snd (operatorStep OPS st op)) !! mcid = mcidToProps (snd st) !! mcid.
Proof.
  intros Hnot. destruct st as [stack x]. unfold operatorStep.
  destruct (fn op =? beginMarkedContentProps OPS)%Z eqn:Hfn.
  - apply Z.eqb_eq in Hfn.
    destruct (nth_error (args op) 1) as [[n|s|d|[m|]|i|]|] eqn:Harg; try reflexivity.
    destruct (dictMcid d) as [m|] eqn:Hm; [|reflexivity].
    destruct (hasKeys (contentPropsOf d)) eqn:Hkeys; [|reflexivity].
    simpl. destruct (decide (m = mcid)) as [->|Hne].
    + exfalso. apply Hnot. exists (contentPropsOf d).
      split; [done|]. exists d. done.
    + by rewrite lookup_insert_ne.
  - destruct (fn op =? beginMarkedContent OPS)%Z; [reflexivity|].
    destruct (fn op =? endMarkedContent OPS)%Z; reflexivity.
Qed.

Lemma run_others (ops : list PDFOperator) (st : list (list Z) * ContentExtractor)
    (mcid : Z) :
  Forall (fun o => ¬ declaresFor OPS mcid o) ops →
  mcidToProps (snd (fold_left (operatorStep OPS) ops st)) !! mcid
  = mcidToProps (snd st) !! mcid.
Proof.
  intros Hall. revert st. induction Hall as [|op ops Hop _ IH]; intros st; simpl.
  - reflexivity.
  - rewrite IH. by apply step_other.
Qed.

(** C7, as the code has it.  Every declaration that carries at least one
    of the four properties stores its record under the content id,
    replacing what an earlier declaration stored: after the whole page
    stream the stored properties are those of the last such declaration
    of the id. *)
Theorem properties_of_last_declaration (before after : list PDFOperator)
    (op : PDFOperator) (x : ContentExtractor) (mcid : Z) (props : MarkedContentProps) :
  declaresProps OPS op mcid props →
  Forall (fun o => ¬ declaresFor OPS mcid o) after →
  getProperties (extractOperators OPS (before ++ op :: after) x) mcid = Some props.
Proof.
  intros Hop Hafter. unfold getProperties, extractOperators.
  rewrite fold_left_app. simpl.
  rewrite run_others by done.
  by apply step_declaring.
Qed.

End MarkedContentProperties.

Section MarkedContentPropertiesExamples.
Import Js AttributeMapper Extractor Props Samples.

(** The content id 0 is declared with the language en and later with the
    language fr: the stored language is fr, not the one declared first. *)
Lemma second_declaration_replaces_first :
  getProperties (extractOperators providerOPS [beginProps 0 "en"] newExtractor) 0
  = Some (mkProps (Some "en") None None None)
  ∧ getProperties (extractOperators providerOPS declaredTwice newExtractor) 0
    = Some (mkProps (Some "fr") None None None).
Proof. vm_compute. split; reflexivity. Qed.

Lemma properties_of_last_declaration_witness :
  declaresProps providerOPS (beginProps 0 "fr") 0 (mkProps (Some "fr") None None None)
  ∧ Forall (fun o => ¬ declaresFor providerOPS 0 o) [endRegion]
  ∧ getProperties (extractOperators providerOPS declaredTwice newExtractor) 0
    = Some (mkProps (Some "fr") None None None).
Proof.
  assert (H1 : declaresProps providerOPS (beginProps 0 "fr") 0
                 (mkProps (Some "fr") None None None)).
  { split; [reflexivity|]. eexists. repeat split; reflexivity. }
  assert (H2 : Forall (fun o => ¬ declaresFor providerOPS 0 o) [endRegion]).
  { constructor; [|constructor]. intros (p & Hfn & _). vm_compute in Hfn. discriminate. }
  split; [exact H1|]. split; [exact H2|].
  exact (properties_of_last_declaration providerOPS
           [beginProps 0 "en"; endRegion] [endRegion] (beginProps 0 "fr")
           newExtractor 0 _ H1 H2).
Defined.

End MarkedContentPropertiesExamples.

Section AbsentContent.
Import Js AttributeMapper Extractor Traversal Props Samples.

Variable P : Provider.
Variable context : PDFContext.

(** C9, as the code has it.  When the extraction of the page recorded no
    text, no image and no operator for a content id, the three lookups
    return the empty string and empty lists, and the leaf renders to
    empty markup and empty text provided the region's stored properties,
    if any, hold neither an [ActualText] nor an [Alt]; nothing in the
    computation can fail. *)
Theorem absent_content_renders_empty (mcid : Z) (pgRef : Ref)
    (traversalCtx : TraversalContext) (idState : IdState) (viaArray : bool) :
  let x := extractorFor P context (getPageIndex context pgRef) in
  mcidToText x !! mcid = None →
  mcidToImages x !! mcid = None →
  mcidToOps x !! mcid = None →
  (∀ p, getProperties x mcid = Some p →
        nonEmpty (ActualText p) = None ∧ nonEmpty (Alt p) = None) →
  getText x mcid = EmptyString
  ∧ getImages x mcid = []
  ∧ getOperators x mcid = []
  ∧ processStructElement P context viaArray (ONumber mcid) (Some pgRef) traversalCtx idState
    = (emptyContent, idState)
  ∧ processMCR P context
      (mkFields (Some "MCR") None None None AttrAbsent ClassAbsent
                None None None None None None (Some mcid) noAF)
      (Some pgRef) traversalCtx
    = emptyContent.
Proof.
  intros x Htext Himages Hops Hprops.
  assert (Ht : getText x mcid = EmptyString) by (unfold getText; by rewrite Htext).
  assert (Hi : getImages x mcid = []) by (unfold getImages; by rewrite Himages).
  assert (Ho : getOperators x mcid = []) by (unfold getOperators; by rewrite Hops).
  assert (Hfetch : ∀ b a pv tt,
             fetchContentForMCID P context mcid pgRef b a pv tt = emptyContent).
  { intros b a pv tt. unfold fetchContentForMCID.
    destruct (getPageIndex context pgRef =? -1)%Z; [reflexivity|].
    fold x. unfold hasVectorOperators. rewrite Hi, Ho, Ht. simpl.
    assert (Hp : nonEmpty (getProperties x mcid ≫= ActualText) = None
                 ∧ nonEmpty (getProperties x mcid ≫= Alt) = None).
    { destruct (getProperties x mcid) as [p|] eqn:Hp; [|done]. by apply Hprops. }
    destruct Hp as [-> ->].
    destruct tt, (isSome b); reflexivity. }
  repeat split; try done.
  - simpl. unfold processMCID. by rewrite Hfetch.
  - unfold processMCR. simpl. by rewrite Hfetch.
Qed.

End AbsentContent.

Section AbsentContentExamples.
Import Js AttributeMapper Extractor Traversal Props Samples.

(** Nothing is recorded for content id 0 of the page - no text, no image,
    no operator - yet the leaf renders a [span] that carries the
    alternate description of the region. *)
Lemma alt_only_region_renders_span :
  let x := extractorFor plainProvider (onPage altOnlyPage []) 0 in
  mcidToText x !! 0%Z = None
  ∧ mcidToImages x !! 0%Z = None
  ∧ mcidToOps x !! 0%Z = None
  ∧ html (fst (processStructElement plainProvider (onPage altOnlyPage []) true
                 (ONumber 0) (Some pageRef) initialContext initialIdState))
    = "<span title=" +:+ q "logo" +:+ "></span>"
  ∧ render (onPage altOnlyPage [paragraphOwning 0])
    = "<p data-pdf-se-type=" +:+ q "P" +:+ " id=" +:+ q "pdf-se-1-0" +:+ ">"
      +:+ "<span title=" +:+ q "logo" +:+ "></span></p>".
Proof. vm_compute. repeat split; reflexivity. Qed.

Lemma absent_content_renders_empty_witness :
  let x := extractorFor plainProvider (onPage emptyPage []) (getPageIndex (onPage emptyPage []) pageRef) in
  mcidToText x !! 5%Z = None
  ∧ mcidToImages x !! 5%Z = None
  ∧ mcidToOps x !! 5%Z = None
  ∧ (∀ p, getProperties x 5 = Some p →
          nonEmpty (ActualText p) = None ∧ nonEmpty (Alt p) = None)
  ∧ processStructElement plainProvider (onPage emptyPage []) true (ONumber 5)
      (Some pageRef) initialContext initialIdState
    = (emptyContent, initialIdState).
Proof.
  assert (H1 : mcidToText (extractorFor plainProvider (onPage emptyPage [])
                  (getPageIndex (onPage emptyPage []) pageRef)) !! 5%Z = None)
    by (vm_compute; reflexivity).
  assert (H2 : mcidToImages (extractorFor plainProvider (onPage emptyPage [])
                  (getPageIndex (onPage emptyPage []) pageRef)) !! 5%Z = None)
    by (vm_compute; reflexivity).
  assert (H3 : mcidToOps (extractorFor plainProvider (onPage emptyPage [])
                  (getPageIndex (onPage emptyPage []) pageRef)) !! 5%Z = None)
    by (vm_compute; reflexivity).
  assert (H4 : ∀ p, getProperties (extractorFor plainProvider (onPage emptyPage [])
                  (getPageIndex (onPage emptyPage []) pageRef)) 5 = Some p →
               nonEmpty (ActualText p) = None ∧ nonEmpty (Alt p) = None).
  { intros p Hp. vm_compute in Hp. discriminate. }
  split; [exact H1|]. split; [exact H2|]. split; [exact H3|]. split; [exact H4|].
  exact (proj1 (proj2 (proj2 (proj2
    (absent_content_renders_empty plainProvider (onPage emptyPage []) 5 pageRef
       initialContext initialIdState true H1 H2 H3 H4))))).
Defined.

End AbsentContentExamples.

Section HeadingSelection.
Import Js Roles AttributeMapper Extractor Traversal Props Samples.

Variable P : Provider.
Variable context : PDFContext.

Lemma isGenericHeading_cases (role : string) :
  isGenericHeading role = true → role = "H" ∨ role = "Hn" ∨ role = "Title".
Proof.
  unfold isGenericHeading. intros H.
  apply orb_prop in H as [H|H]; [apply orb_prop in H as [H|H]|];
    apply String.eqb_eq in H; tauto.
Qed.

(** The guard for table cells does apply to the generic heading roles:
    with a parent [TH] or [TD] and no [TextPosition] attribute the tag
    is [p]. *)
Lemma generic_heading_in_cell_is_p (f : Fields) (k : Kids StructObj) (sType : string)
    (pg : option Ref) (traversalCtx newCtx : TraversalContext) :
  isGenericHeading (resolveRole sType (contextRoleMap context) (getNamespaceURI P f)) = true →
  parentRole traversalCtx = Some "TH" ∨ parentRole traversalCtx = Some "TD" →
  getAttribute (fA f) "TextPosition" = None →
  selTag (selectStandard P context f k sType pg traversalCtx newCtx) = "p".
Proof.
  intros Hrole Hparent Htp. unfold selectStandard. rewrite Htp.
  set (role := resolveRole sType (contextRoleMap context) (getNamespaceURI P f)) in *.
  assert (Hh : headingTag role traversalCtx = Some ("p", None)).
  { unfold headingTag. rewrite Hrole, orb_true_r.
    destruct Hparent as [-> | ->]; reflexivity. }
  rewrite Hh.
  destruct (isGenericHeading_cases role Hrole) as [-> | [-> | ->]]; reflexivity.
Qed.

(** No name made of H and digits passes the pattern for explicit
    headings, so the heading rule never sees H1 to H6 (nor H7 and above)
    as explicit headings. *)
Lemma explicit_heading_never_recognised (digits : string) :
  forallb isDigit (chars digits) = true →
  explicitHeadingRegex (String "H"%char digits) = false.
Proof.
  destruct digits as [|c rest]; [reflexivity|]. simpl. intros H.
  apply andb_prop in H as [Hc _].
  destruct c as [[] [] [] [] [] [] [] []]; try reflexivity; discriminate.
Qed.

Lemma headingTag_H1_none (traversalCtx : TraversalContext) :
  headingTag "H1" traversalCtx = None.
Proof. reflexivity. Qed.

End HeadingSelection.

Section HeadingExamples.
Import Js Roles AttributeMapper Extractor Traversal Props Samples.

(** C2.  An H1 whose parent is a TD is emitted as [h1]: the guard for
    table cells tests the role with the pattern for explicit headings,
    which H1 does not pass, so the tag of the default table stays. *)
Theorem H1_in_table_cell_renders_h1 :
  explicitHeadingRegex "H1" = false
  ∧ (∀ traversalCtx, headingTag "H1" traversalCtx = None)
  ∧ render (document None [elem 1 "TD" [elem 2 "H1" []]])
    = "<td data-pdf-se-type=" +:+ q "TD" +:+ " id=" +:+ q "pdf-se-1-0" +:+ ">"
      +:+ "<h1 data-pdf-se-type=" +:+ q "H1" +:+ " id=" +:+ q "pdf-se-2-0" +:+ "></h1>"
      +:+ "</td>".
Proof.
  split; [reflexivity|]. split; [intros; reflexivity|]. vm_compute. reflexivity.
Qed.

Example generic_heading_in_cell :
  render (document None [elem 1 "TD" [elem 2 "H" []]])
  = "<td data-pdf-se-type=" +:+ q "TD" +:+ " id=" +:+ q "pdf-se-1-0" +:+ ">"
    +:+ "<p data-pdf-se-type=" +:+ q "H" +:+ " id=" +:+ q "pdf-se-2-0" +:+ "></p>"
    +:+ "</td>".
Proof. vm_compute. reflexivity. Qed.

(** C3.  An explicit H9 is emitted as a [div] without heading role or
    level: it is not a standard type for the resolver, it has no entry in
    the default tag table, and the heading rule does not recognise it. *)
Theorem H9_renders_div :
  isStandardType "H9" = false
  ∧ headingTag "H9" initialContext = None
  ∧ render (document None [elem 1 "H9" []])
    = "<div data-pdf-se-type=" +:+ q "H9" +:+ " id=" +:+ q "pdf-se-1-0" +:+ "></div>".
Proof. vm_compute. repeat split; reflexivity. Qed.

(** The generic headings do follow the inherited depth: two groupings
    give [h3], eight give a paragraph announced as a heading of level 9. *)
Example generic_heading_depth_3 :
  render (document None [elem 1 "Sect" [elem 2 "Sect" [elem 3 "H" []]]])
  = "<section data-pdf-se-type=" +:+ q "Sect" +:+ " id=" +:+ q "pdf-se-1-0" +:+ ">"
    +:+ "<section data-pdf-se-type=" +:+ q "Sect" +:+ " id=" +:+ q "pdf-se-2-0" +:+ ">"
    +:+ "<h3 data-pdf-se-type=" +:+ q "H" +:+ " id=" +:+ q "pdf-se-3-0" +:+ "></h3>"
    +:+ "</section></section>".
Proof. vm_compute. reflexivity. Qed.

Example generic_heading_depth_9 :
  headingTag "H" (withHeadingLevel initialContext (Some 9%Z)) = Some ("p", Some 9%Z)
  ∧ includes
      ("<p data-pdf-se-type=" +:+ q "H" +:+ " role=" +:+ q "heading"
       +:+ " aria-level=" +:+ q "9" +:+ " id=" +:+ q "pdf-se-9-0" +:+ "></p>")
      (render (document None [nestSect 8 1 (elem 9 "H" [])]))
    = true.
Proof. vm_compute. split; reflexivity. Qed.

End HeadingExamples.

Section ReferenceCollapsing.
Import Js Roles AttributeMapper Extractor Traversal Props Samples.

Variable P : Provider.
Variable context : PDFContext.


End ReferenceCollapsing.

Section ReferenceExamples.
Import Js Roles AttributeMapper Extractor Traversal Props Samples.


Example immediate_link_single_anchor :
  render (document None [referenceOverLink])
  = "<a data-pdf-se-type=" +:+ q "Link" +:+ " id=" +:+ q "pdf-se-2-0" +:+ "></a>".
Proof. vm_compute. reflexivity. Qed.


End ReferenceExamples.

Section TraversalResult.
Import Js Roles AttributeMapper Extractor Traversal Props Samples.

(** C1.  [traverseStructure] yields the markup alone, a string.  Two
    documents whose paragraph owns different content ids (5 and 6, with
    nothing extracted for either) yield the same value, so no index from
    element identifiers to content ids is part of, or recoverable from,
    what the traversal returns. *)
Theorem traverseStructure_returns_markup_only :
  render (onPage emptyPage [paragraphOwning 5])
  = "<p data-pdf-se-type=" +:+ q "P" +:+ " id=" +:+ q "pdf-se-1-0" +:+ "></p>"
  ∧ render (onPage emptyPage [paragraphOwning 6])
    = render (onPage emptyPage [paragraphOwning 5])
  ∧ traverseStructure plainProvider (mkContext None (fun _ => 0%Z) (fun _ => emptyPage))
    = EmptyString.
Proof. vm_compute. repeat split; reflexivity. Qed.

End TraversalResult.

Section Lexing.
Import Js Roles AttributeMapper Extractor Traversal Props.

Lemma append_cons (x : ascii) (a b : string) : String x a +:+ b = String x (a +:+ b).
Proof. reflexivity. Qed.

Lemma append_assoc (a b c : string) : (a +:+ b) +:+ c = a +:+ (b +:+ c).
Proof.
  induction a as [|x a IH]; [reflexivity|].
  rewrite !append_cons. f_equal. exact IH.
Qed.

Lemma append_empty_r (a : string) : a +:+ EmptyString = a.
Proof.
  induction a as [|x a IH]; [reflexivity|].
  rewrite append_cons. f_equal. exact IH.
Qed.

Lemma lex_app (st : LexState) (a b : string) :
  lex st (a +:+ b) = lex st a ≫= λ st', lex st' b.
Proof.
  revert st. induction a as [|c a IH]; intros st; [reflexivity|].
  rewrite append_cons. simpl. destruct (lexStep st c); simpl; [apply IH | reflexivity].
Qed.

Lemma neutral_cons (c : ascii) (s : string) :
  neutral (String c s) = negb (special c) && neutral s.
Proof. reflexivity. Qed.

Lemma neutral_app (a b : string) : neutral (a +:+ b) = neutral a && neutral b.
Proof.
  induction a as [|c a IH]; [reflexivity|].
  rewrite append_cons, !neutral_cons, IH. apply andb_assoc.
Qed.

Lemma lex_neutral (st : LexState) (s : string) : neutral s = true → lex st s = Some st.
Proof.
  revert st. induction s as [|c s IH]; intros st; [reflexivity|].
  rewrite neutral_cons. intros H. apply andb_prop in H as [Hc Hs].
  simpl. unfold lexStep. rewrite Hc. simpl. auto.
Qed.

(** Composition of scans. *)
Lemma lex_seq (st1 st2 st3 : LexState) (a b : string) :
  lex st1 a = Some st2 → lex st2 b = Some st3 → lex st1 (a +:+ b) = Some st3.
Proof. intros Ha Hb. rewrite lex_app, Ha. exact Hb. Qed.




Lemma attributeRun_neutral (s : string) : neutral s = true → attributeRun s.
Proof. apply lex_neutral. Qed.

Lemma replaceAll_app (c : ascii) (by_ a b : string) :
  replaceAll c by_ (a +:+ b) = replaceAll c by_ a +:+ replaceAll c by_ b.
Proof.
  induction a as [|x a IH]; [reflexivity|].
  rewrite append_cons. simpl. destruct (Ascii.eqb x c); rewrite IH.
  - symmetry. apply append_assoc.
  - reflexivity.
Qed.

Lemma escapeHtml_cons (c : ascii) (s : string) :
  escapeHtml (String c s) = escapeChar c +:+ escapeHtml s.
Proof.
  unfold escapeHtml, escapeChar. simpl replaceAll at 5.
  destruct (Ascii.eqb c "&"%char) eqn:Hamp.
  { rewrite !replaceAll_app. reflexivity. }
  simpl replaceAll at 4.
  destruct (Ascii.eqb c "<"%char) eqn:Hlt.
  { rewrite !replaceAll_app. reflexivity. }
  simpl replaceAll at 3.
  destruct (Ascii.eqb c ">"%char) eqn:Hgt.
  { rewrite !replaceAll_app. reflexivity. }
  simpl replaceAll at 2.
  destruct (Ascii.eqb c (chr 34)) eqn:Hdq.
  { rewrite !replaceAll_app. reflexivity. }
  simpl replaceAll at 1.
  destruct (Ascii.eqb c (chr 39)) eqn:Hap; reflexivity.
Qed.

Lemma neutral_escapeChar (c : ascii) : neutral (escapeChar c) = true.
Proof.
  unfold escapeChar.
  destruct (Ascii.eqb c "&"%char) eqn:Hamp; [reflexivity|].
  destruct (Ascii.eqb c "<"%char) eqn:Hlt; [reflexivity|].
  destruct (Ascii.eqb c ">"%char) eqn:Hgt; [reflexivity|].
  destruct (Ascii.eqb c (chr 34)) eqn:Hdq; [reflexivity|].
  destruct (Ascii.eqb c (chr 39)) eqn:Hap; [reflexivity|].
  rewrite neutral_cons. unfold special, isLt, isGt, isDq, isApos.
  rewrite Hlt, Hgt, Hdq, Hap. reflexivity.
Qed.

(** Escaped text holds none of the four characters. *)
Lemma neutral_escapeHtml (s : string) : neutral (escapeHtml s) = true.
Proof.
  induction s as [|c s IH]; [reflexivity|].
  rewrite escapeHtml_cons, neutral_app, neutral_escapeChar, IH. reflexivity.
Qed.

(** Every ampersand of the input becomes the entity for it, so the
    entities that [escapeHtml] writes are the only ones in its output. *)
Lemma escapeHtml_app (a b : string) : escapeHtml (a +:+ b) = escapeHtml a +:+ escapeHtml b.
Proof.
  induction a as [|c a IH]; [reflexivity|].
  rewrite append_cons, !escapeHtml_cons, IH. symmetry. apply append_assoc.
Qed.

End Lexing.

Section NeutralPieces.
Import Js Roles AttributeMapper Extractor Traversal Props.

Lemma chars_str (l : list ascii) : chars (str l) = l.
Proof. apply list_ascii_of_string_of_list_ascii. Qed.










Lemma attributeRun_empty : attributeRun EmptyString.
Proof. reflexivity. Qed.

Lemma wellTagged_empty : wellTagged EmptyString.
Proof. reflexivity. Qed.




End NeutralPieces.

Section TagNames.
Import Js Roles AttributeMapper Extractor Traversal Props.

Variable P : Provider.
Variable context : PDFContext.







End TagNames.

Section AttributeRuns.
Import Js Roles AttributeMapper Extractor Traversal Props.

Variable P : Provider.
Variable context : PDFContext.







(** *** Content *)










End AttributeRuns.

Section Descent.
Import Js Roles AttributeMapper Extractor Traversal Props.

Variable P : Provider.
Variable context : PDFContext.



Lemma Forall_filter_keep {A} (Q : A → Prop) (p : A → bool) (l : list A) :
  Forall Q l → Forall Q (List.filter p l).
Proof.
  induction 1 as [|x l Hx _ IH]; simpl; [constructor|].
  destruct (p x); [by constructor | exact IH].
Qed.






(** Induction on a structure tree, with the children of an array. *)
Lemma StructObj_tree_ind (Q : StructObj → Prop) :
  Q ONull → (∀ n, Q (ONumber n)) → Q OOther →
  (∀ ref addr f, Q (ODict ref addr f KAbsent)) →
  (∀ ref addr f c, Q c → Q (ODict ref addr f (KOne c))) →
  (∀ ref addr f cs, Forall Q cs → Q (ODict ref addr f (KArray cs))) →
  ∀ t, Q t.
Proof.
  intros Hnull Hnum Hother Habsent Hone Harray.
  fix IH 1. intros [|n| |ref addr f [|c|cs]].
  - exact Hnull.
  - apply Hnum.
  - exact Hother.
  - apply Habsent.
  - apply Hone, IH.
  - apply Harray.
    induction cs as [|c cs IHcs]; constructor; [apply IH | exact IHcs].
Qed.




End Descent.

Section Escaping.
Import Js Roles AttributeMapper Extractor Traversal Props Samples.




End Escaping.

(* ===================================================================== *)
(** * Further properties of the code *)
(* ===================================================================== *)

Section RoleResolverPaths.
Import Js Roles Props.

Lemma isStandardType_truthy r : isStandardType r = true → truthy r = true.
Proof. by destruct r. Qed.

Lemma iteration_reaches roleMap st st' :
  (loopIteration roleMap st = Continue st' ∨ loopIteration roleMap st = Break st') →
  (current st' = current st ∨
   (roleMap !! current st = Some (current st') ∧ truthy (current st') = true)).
Proof.
  unfold loopIteration.
  destruct (roleMap !! current st) as [next|] eqn:Hlk.
  - destruct (decide (current st ∈ seen st)).
    + intros [H|H]; [discriminate | injection H as <-; by left].
    + destruct (negb (truthy next)) eqn:Hn.
      * intros [H|H]; [discriminate | injection H as <-; by left].
      * apply negb_false_iff in Hn.
        destruct (isStandardType next);
          intros [H|H]; try discriminate; injection H as <-; right; done.
  - intros [H|H]; [discriminate | injection H as <-; by left].
Qed.

Lemma whileLoop_reaches roleMap fuel st st' :
  whileLoop fuel roleMap st = Some st' →
  rtc (λ a b, roleMap !! a = Some b) (current st) (current st')
  ∧ (truthy (current st) = true → truthy (current st') = true).
Proof.
  revert st. induction fuel as [|fuel IH]; intros st Hrun; [discriminate|].
  simpl in Hrun. destruct (loopIteration roleMap st) as [s|s] eqn:Hit.
  - destruct (IH _ Hrun) as [Hr Ht].
    destruct (iteration_reaches roleMap st s (or_introl Hit)) as [Heq|[Hlk Hs]].
    + rewrite <- Heq. done.
    + split; [by eapply rtc_l | auto].
  - injection Hrun as <-.
    destruct (iteration_reaches roleMap st s (or_intror Hit)) as [Heq|[Hlk Hs]].
    + rewrite Heq. done.
    + split; [by apply rtc_once | auto].
Qed.

(** X1.  Whatever the role map, the name that [resolveRole] returns is
    reached from the name it was given by following entries of the role
    map (zero or more of them): the resolver never invents a role.  And it
    never turns a name into the empty string: an entry that maps to the
    empty string is not followed. *)
Theorem resolveRole_follows_role_map (role : string)
    (roleMap : gmap string string) (namespaceURI : string) :
  rtc (λ a b, roleMap !! a = Some b) role (resolveRole role (Some roleMap) namespaceURI)
  ∧ (role ≠ EmptyString → resolveRole role (Some roleMap) namespaceURI ≠ EmptyString).
Proof.
  unfold resolveRole, resolveRoleRun.
  destruct (negb (truthy role)) eqn:Hrole; [simpl; done|].
  destruct (isPdfStandardNamespace namespaceURI && isStandardType role); [simpl; done|].
  destruct (whileLoop (S (size roleMap)) roleMap (initLoop role)) as [st|] eqn:Hrun;
    [|done].
  apply whileLoop_reaches in Hrun as [Hr Ht]. simpl in *.
  split; [done|]. intros _ Heq. rewrite Heq in Ht.
  apply negb_false_iff in Hrole. specialize (Ht Hrole). discriminate.
Qed.

(** Chains are determined by their first name. *)
Lemma chain_unique roleMap a via via' t t' :
  chain roleMap a via t → chain roleMap a via' t' → via = via' ∧ t = t'.
Proof.
  revert a via'. induction via as [|b rest IH]; intros a [|b' rest']; simpl.
  - intros [H1 _] [H2 _]. split; congruence.
  - intros [H1 Hs] (H2 & _ & Hn & _). congruence.
  - intros (H1 & _ & Hn & _) [H2 Hs]. congruence.
  - intros (H1 & _ & _ & Hc) (H2 & _ & _ & Hc').
    assert (b = b') as <- by congruence.
    destruct (IH _ _ Hc Hc') as [-> ->]. done.
Qed.

Lemma chain_suffix roleMap a p1 b p2 t :
  chain roleMap a (p1 ++ b :: p2) t → chain roleMap b p2 t.
Proof.
  revert a. induction p1 as [|c p1 IH]; intros a; simpl.
  - tauto.
  - intros (_ & _ & _ & Hc). eauto.
Qed.

(** A chain never comes back to a name: it would never end. *)
Lemma chain_fresh roleMap a via t : chain roleMap a via t → a ∉ via.
Proof.
  intros Hc Hin. apply list_elem_of_split in Hin as (p1 & p2 & ->).
  pose proof (chain_suffix _ _ _ _ _ _ Hc) as Hc'.
  destruct (chain_unique _ _ _ _ _ _ Hc Hc') as [Hlen _].
  apply (f_equal length) in Hlen. rewrite length_app in Hlen. simpl in Hlen. lia.
Qed.

Lemma chain_NoDup roleMap a via t : chain roleMap a via t → NoDup (a :: via).
Proof.
  revert a. induction via as [|b rest IH]; intros a Hc.
  - apply NoDup_singleton.
  - apply NoDup_cons. split; [by eapply chain_fresh|].
    apply IH. simpl in Hc. tauto.
Qed.

Lemma whileLoop_chain roleMap via : ∀ a t sn k,
  chain roleMap a via t →
  (∀ x, x ∈ a :: via → x ∉ sn) →
  NoDup (a :: via) →
  ∃ st, whileLoop (S (length via)) roleMap (mkLoop a sn k) = Some st ∧ current st = t.
Proof.
  induction via as [|b rest IH]; intros a t sn k Hc Hfresh Hnd.
  - destruct Hc as [Hlk Hstd]. simpl. unfold loopIteration. simpl. rewrite Hlk.
    destruct (decide (a ∈ sn)) as [Hin|_].
    { exfalso. eapply Hfresh; [|done]. set_solver. }
    rewrite (isStandardType_truthy _ Hstd), Hstd. simpl. eauto.
  - destruct Hc as (Hlk & Hb & Hn & Hc).
    change (whileLoop (S (length (b :: rest))) roleMap (mkLoop a sn k))
      with (match loopIteration roleMap (mkLoop a sn k) with
            | Break s => Some s
            | Continue s => whileLoop (S (length rest)) roleMap s
            end).
    unfold loopIteration. cbn [current seen steps]. rewrite Hlk.
    destruct (decide (a ∈ sn)) as [Hin|_].
    { exfalso. eapply Hfresh; [|done]. set_solver. }
    rewrite Hb, Hn. cbn [negb].
    apply IH; [done| |by apply NoDup_cons in Hnd as [_ ?]].
    intros x Hx. apply not_elem_of_union. split.
    + apply NoDup_cons in Hnd as [Ha _]. set_solver.
    + apply Hfresh. apply elem_of_cons. by right.
Qed.

(** X2.  Role mapping is transitive and stops at the first standard
    type: when the entries of the role map lead from a type name through
    custom names to a standard type, [resolveRole] returns that standard
    type - however long the chain, and whatever else the role map holds
    (the standard type may itself be mapped further; that entry is not
    followed).  The precondition excludes only the early return for a
    standard name in a default namespace. *)
Theorem resolveRole_first_standard_type (role : string)
    (roleMap : gmap string string) (namespaceURI : string)
    (via : list string) (target : string) :
  truthy role = true →
  isPdfStandardNamespace namespaceURI && isStandardType role = false →
  chain roleMap role via target →
  resolveRole role (Some roleMap) namespaceURI = target.
Proof.
  intros Hrole Hearly Hc. unfold resolveRole, resolveRoleRun.
  rewrite Hrole, Hearly. cbn [negb].
  destruct (whileLoop_chain roleMap via role target ∅ 0 Hc) as (st & Hrun & Hcur).
  { set_solver. }
  { by eapply chain_NoDup. }
  destruct (whileLoop_halts roleMap (S (size roleMap)) (initLoop role))
    as (st' & Hrun' & _).
  { apply loopInv_init. }
  { simpl. lia. }
  rewrite Hrun'.
  destruct (Nat.le_ge_cases (S (length via)) (S (size roleMap))) as [Hle|Hle].
  - pose proof (whileLoop_fuel_mono _ _ _ _ _ Hrun Hle) as Hsame.
    unfold initLoop in Hrun'. congruence.
  - pose proof (whileLoop_fuel_mono _ _ _ _ _ Hrun' Hle) as Hsame.
    unfold initLoop in Hsame. congruence.
Qed.

Lemma resolveRole_first_standard_type_witness :
  resolveRole "Chapter"
    (Some (<["Chapter" := "Unit"]> (<["Unit" := "Sect"]> (<["Sect" := "Div"]> ∅)))) ""
  = "Sect".
Proof.
  apply (resolveRole_first_standard_type "Chapter" _ "" ["Unit"] "Sect").
  - reflexivity.
  - reflexivity.
  - simpl. repeat split; reflexivity.
Defined.

End RoleResolverPaths.

Section AttributeMaps.
Import Js Roles AttributeMapper Props Samples.












Lemma getBBox_scan (ds : list Dict) :
  let scan :=
    fix scan (ds : list Dict) : option (list PDFValue) :=
      match ds with
      | [] => None
      | d :: r =>
          match get d "BBox" with
          | Some (VArr [a; b; c; e]) => Some [a; b; c; e]
          | _ => scan r
          end
      end in
  match scan ds with
  | Some box => length box = 4%nat ∧ ∃ d, In d ds ∧ get d "BBox" = Some (VArr box)
  | None => ∀ d box, In d ds → get d "BBox" = Some (VArr box) → length box ≠ 4%nat
  end.
Proof.
  cbv zeta. induction ds as [|d ds IH]; [intros d box []|].
  destruct (get d "BBox") as [v|] eqn:Hget.
  - destruct v as [| | | | |items|];
      try (destruct (_ ds) as [box|];
           [destruct IH as (Hl & d' & Hin & Hd'); split; [done|];
            exists d'; split; [by right | done]
           | intros d' box [<-|Hin] Hd'; [congruence | by eapply IH]]).
    destruct items as [|a [|b [|c [|e [|x rest]]]]];
      try (destruct (_ ds) as [box|];
           [destruct IH as (Hl & d' & Hin & Hd'); split; [done|];
            exists d'; split; [by right | done]
           | intros d' box [<-|Hin] Hd';
             [rewrite Hget in Hd'; injection Hd' as <-; simpl; lia | by eapply IH]]).
    split; [done|]. exists d. split; [by left | done].
  - destruct (_ ds) as [box|].
    + destruct IH as (Hl & d' & Hin & Hd'). split; [done|].
      exists d'. split; [by right | done].
    + intros d' box [<-|Hin] Hd'; [congruence | by eapply IH].
Qed.

(** X5.  A bounding box that [getBBox] returns always has four entries
    and is the [BBox] array of one of the attribute dictionaries; and it
    returns none only when no dictionary has a [BBox] array of four
    entries - arrays of any other length are passed over, not truncated or
    padded. *)
Theorem bounding_box_is_an_array_of_four (attributes : PDFAttributes) :
  match getBBox attributes with
  | Some box =>
      length box = 4%nat
      ∧ ∃ d, In d (dicts attributes) ∧ get d "BBox" = Some (VArr box)
  | None =>
      ∀ d box, In d (dicts attributes) → get d "BBox" = Some (VArr box) →
               length box ≠ 4%nat
  end.
Proof. apply (getBBox_scan (dicts attributes)). Qed.

End AttributeMaps.

Section AttributeMarkup.
Import Js Roles AttributeMapper Extractor Traversal Props Samples.




















End AttributeMarkup.

Section OperatorAttribution.
Import Js AttributeMapper Extractor Props Samples.

Lemma fold_record_lookup {A} (x : A) (l : list Z) (m : gmap Z (list A)) (k : Z) :
  default [] (fold_left (λ acc i, <[ i := default [] (acc !! i) ++ [x] ]> acc) l m !! k)
  = default [] (m !! k) ++ repeat x (count_occ Z.eq_dec l k).
Proof.
  revert m. induction l as [|a l IH]; intros m; simpl.
  - by rewrite app_nil_r.
  - rewrite IH. destruct (Z.eq_dec a k) as [->|Hne].
    + rewrite lookup_insert_eq. simpl. by rewrite <- app_assoc.
    + by rewrite lookup_insert_ne.
Qed.

Lemma getOperators_recordOp stack op ms k :
  default [] (recordOp stack op ms !! k)
  = default [] (ms !! k) ++ repeat op (count_occ Z.eq_dec (concat stack) k).
Proof. apply fold_record_lookup. Qed.

Lemma operatorStep_plain OPS stack x op :
  isRegionOperator OPS op = false →
  ∃ x', operatorStep OPS (stack, x) op = (stack, x')
        ∧ mcidToOps x' = recordOp stack op (mcidToOps x)
        ∧ mcidToText x' = mcidToText x
        ∧ mcidToProps x' = mcidToProps x.
Proof.
  unfold isRegionOperator. intros H.
  apply orb_false_iff in H as [H H3]. apply orb_false_iff in H as [H1 H2].
  unfold operatorStep. rewrite H1, H2, H3. eexists. split; [reflexivity|]. done.
Qed.

Lemma plain_run OPS ops : ∀ stack x,
  Forall (λ op, isRegionOperator OPS op = false) ops →
  ∃ x', fold_left (operatorStep OPS) ops (stack, x) = (stack, x')
        ∧ mcidToText x' = mcidToText x
        ∧ mcidToProps x' = mcidToProps x
        ∧ ∀ m, getOperators x' m
               = getOperators x m
                 ++ flat_map (λ op, repeat op (count_occ Z.eq_dec (concat stack) m)) ops.
Proof.
  induction ops as [|op ops IH]; intros stack x Hall.
  - exists x. simpl. repeat split. intros m. by rewrite app_nil_r.
  - apply Forall_cons in Hall as [Hop Hall].
    destruct (operatorStep_plain OPS stack x op Hop) as (x1 & Hstep & Hops & Ht & Hp).
    destruct (IH stack x1 Hall) as (x' & Hrun & Ht' & Hp' & Hget).
    exists x'. cbn [fold_left]. rewrite Hstep. split; [done|].
    split; [congruence|]. split; [congruence|].
    intros m. rewrite Hget. unfold getOperators at 1. rewrite Hops.
    rewrite getOperators_recordOp. unfold getOperators.
    by rewrite <- app_assoc.
Qed.

(** X7.  Every operator that is not a region boundary is recorded for
    every marked-content region that is open when it occurs - nested
    regions included - and for no other content id: after a run of such
    operators the region stack is what it was, and the operators recorded
    for a content id are those recorded before, followed by the operators
    of the run, each once per open region with that id (so none at all for
    an id that is not open, and none when no region is open). *)
Theorem operators_recorded_for_every_open_region (OPS : OpsTable)
    (ops : list PDFOperator) (stack : list (list Z)) (x : ContentExtractor) :
  Forall (λ op, isRegionOperator OPS op = false) ops →
  fst (fold_left (operatorStep OPS) ops (stack, x)) = stack
  ∧ ∀ m, getOperators (snd (fold_left (operatorStep OPS) ops (stack, x))) m
         = getOperators x m
           ++ flat_map (λ op, repeat op (count_occ Z.eq_dec (concat stack) m)) ops.
Proof.
  intros Hall. destruct (plain_run OPS ops stack x Hall) as (x' & -> & _ & _ & Hget).
  done.
Qed.

Lemma operators_recorded_for_every_open_region_witness :
  fst (fold_left (operatorStep providerOPS) [moveTo; fill] ([[7%Z]; []], newExtractor))
  = [[7%Z]; []]
  ∧ ∀ m, getOperators
           (snd (fold_left (operatorStep providerOPS) [moveTo; fill]
                           ([[7%Z]; []], newExtractor))) m
         = getOperators newExtractor m
           ++ flat_map (λ op, repeat op (count_occ Z.eq_dec (concat [[7%Z]; []]) m))
                       [moveTo; fill].
Proof.
  apply (operators_recorded_for_every_open_region providerOPS [moveTo; fill]
           [[7%Z]; []] newExtractor).
  repeat constructor.
Defined.

Lemma operatorStep_open OPS stack x op mcid :
  opensRegion OPS op mcid →
  ∃ x', operatorStep OPS (stack, x) op = (stack ++ [[mcid]], x')
        ∧ mcidToOps x' = mcidToOps x ∧ mcidToText x' = mcidToText x.
Proof.
  intros [Hfn Harg]. unfold operatorStep. rewrite Hfn, Z.eqb_refl.
  destruct Harg as [->|[->|(d & -> & ->)]]; eauto.
  destruct (hasKeys (contentPropsOf d)); eauto.
Qed.

Lemma operatorStep_close OPS stack x op :
  closesRegion OPS op → operatorStep OPS (stack, x) op = (popStack stack, x).
Proof.
  intros (H1 & H2 & H3). unfold operatorStep.
  apply Z.eqb_neq in H1, H2. rewrite H1, H2, H3, Z.eqb_refl. done.
Qed.

Lemma flat_map_repeat_one {A} (l : list A) : flat_map (λ op, repeat op 1) l = l.
Proof. induction l as [|a l IH]; [done|]. simpl. f_equal. exact IH. Qed.

Lemma flat_map_repeat_zero {A} (l : list A) : flat_map (λ op, repeat op 0) l = [].
Proof. induction l as [|a l IH]; [done|]. simpl. exact IH. Qed.

(** X8.  The operators of a marked-content region are exactly those
    between its opening and its closing operator: for a page stream that
    opens a region for a content id, continues with operators that are no
    region boundaries, and closes the region, [extractOperators] appends
    these operators, in their order, to those of the content id and
    changes the operators of no other id. *)
Theorem region_operators_are_those_between (OPS : OpsTable)
    (opening closing : PDFOperator) (ops : list PDFOperator) (mcid : Z)
    (x : ContentExtractor) :
  opensRegion OPS opening mcid →
  Forall (λ op, isRegionOperator OPS op = false) ops →
  closesRegion OPS closing →
  ∀ m, getOperators (extractOperators OPS (opening :: ops ++ [closing]) x) m
       = if decide (m = mcid) then getOperators x m ++ ops else getOperators x m.
Proof.
  intros Hopen Hall Hclose m. unfold extractOperators. cbn [fold_left].
  destruct (operatorStep_open OPS [] x opening mcid Hopen) as (x1 & -> & Hops1 & _).
  rewrite fold_left_app. cbn [app].
  destruct (plain_run OPS ops [[mcid]] x1 Hall) as (x2 & -> & _ & _ & Hget).
  cbn [fold_left]. rewrite (operatorStep_close OPS _ x2 closing Hclose). cbn [snd].
  rewrite Hget. unfold getOperators at 1. rewrite Hops1. fold (getOperators x m).
  simpl. destruct (Z.eq_dec mcid m) as [->|Hne].
  - rewrite decide_True by done. by rewrite flat_map_repeat_one.
  - rewrite decide_False by congruence. by rewrite flat_map_repeat_zero, app_nil_r.
Qed.

Lemma region_operators_are_those_between_witness :
  getOperators
    (extractOperators providerOPS (openRegion 3 :: [moveTo; fill] ++ [endRegion])
                      newExtractor) 3
  = (if decide (3%Z = 3%Z) then getOperators newExtractor 3 ++ [moveTo; fill]
     else getOperators newExtractor 3).
Proof.
  apply (region_operators_are_those_between providerOPS (openRegion 3) endRegion
           [moveTo; fill] 3 newExtractor).
  - split; [reflexivity | left; reflexivity].
  - repeat constructor.
  - repeat split; discriminate.
Defined.

End OperatorAttribution.

Section TextAttribution.
Import Js Extractor Props Samples.

Lemma set_fold_appendText text suffix (m0 : gmap Z string) (X : gset Z) (k : Z) :
  set_fold (λ mcid m, appendText text suffix m mcid) m0 X !! k
  = if decide (k ∈ X) then Some (default EmptyString (m0 !! k) +:+ text +:+ suffix)
    else m0 !! k.
Proof.
  revert X k.
  apply (set_fold_ind_L
           (λ (r : gmap Z string) (X : gset Z), ∀ k, r !! k
                        = if decide (k ∈ X)
                          then Some (default EmptyString (m0 !! k) +:+ text +:+ suffix)
                          else m0 !! k)).
  - intros k. by rewrite decide_False by set_solver.
  - intros i Y r Hi IH k. unfold appendText.
    destruct (decide (k = i)) as [->|Hne].
    + rewrite lookup_insert_eq, decide_True by set_solver.
      rewrite IH, decide_False by done. done.
    + rewrite lookup_insert_ne by done. rewrite IH.
      destruct (decide (k ∈ Y)) as [Hin|Hnin].
      * rewrite decide_True; [done|]. apply elem_of_union. by right.
      * rewrite decide_False; [done|].
        intros [Hs|Hy]%elem_of_union; [|done]. apply elem_of_singleton in Hs. done.
Qed.

Lemma getText_set_fold text suffix x (X : gset Z) (k : Z) hasContent lastText images
    ops props stack :
  getText (mkExtractor (set_fold (λ mcid m, appendText text suffix m mcid) (mcidToText x) X)
                       hasContent lastText images ops props stack) k
  = if decide (k ∈ X) then getText x k +:+ text +:+ suffix else getText x k.
Proof.
  unfold getText. simpl. rewrite set_fold_appendText. by destruct (decide (k ∈ X)).
Qed.

Lemma processTextItem_run x item text :
  isTextRun item text →
  processTextItem x item
  = let isWhitespaceOnly := trim text =s EmptyString in
    let activeMcids := activeSet (textStack x) in
    if bool_decide (activeMcids = ∅) then x
    else
      let hasActiveContent := bool_decide (activeMcids ∩ mcidHasContent x ≠ ∅) in
      let targetMcids :=
        if isWhitespaceOnly && negb hasActiveContent
           && negb (bool_decide (lastTextMcids x = ∅))
        then lastTextMcids x else activeMcids in
      let text' :=
        set_fold (fun mcid m => appendText text (textSuffix item) m mcid)
                 (mcidToText x) targetMcids in
      if isWhitespaceOnly then
        mkExtractor text' (mcidHasContent x) (lastTextMcids x)
                    (mcidToImages x) (mcidToOps x) (mcidToProps x) (textStack x)
      else
        mkExtractor text' (activeMcids ∪ mcidHasContent x) activeMcids
                    (mcidToImages x) (mcidToOps x) (mcidToProps x) (textStack x).
Proof.
  intros (H1 & H2 & H3 & Hstr & Ht). unfold processTextItem.
  rewrite !bool_decide_eq_false_2 by done. rewrite Hstr, Ht. reflexivity.
Qed.

(** X9.  Text that is not white space only goes to the content ids of
    all the regions that are open, and to no other: a text item that is no
    region boundary appends its text (and a newline, at the end of a line)
    to the text of every id on the region stack and leaves the text of every
    other id alone; these ids are then the ones that hold content and the
    ones that received text last.  Text outside every region with an id is
    dropped: the extractor does not change. *)
Theorem visible_text_goes_to_the_open_regions (x : ContentExtractor)
    (item : TextItem) (text : string) :
  isTextRun item text →
  trim text ≠ EmptyString →
  let x' := processTextItem x item in
  let active := activeSet (textStack x) in
  (∀ m, getText x' m
        = if decide (m ∈ active) then getText x m +:+ text +:+ textSuffix item
          else getText x m)
  ∧ (active ≠ ∅ → mcidHasContent x' = active ∪ mcidHasContent x
                  ∧ lastTextMcids x' = active)
  ∧ (active = ∅ → x' = x).
Proof.
  intros Hrun Hvis. cbv zeta. rewrite (processTextItem_run x item text Hrun). cbv zeta.
  apply String.eqb_neq in Hvis. rewrite Hvis. cbn [andb].
  destruct (decide (activeSet (textStack x) = ∅)) as [He|Hne].
  - rewrite bool_decide_eq_true_2 by done. split; [|split; done].
    intros m. rewrite decide_False; [done|]. rewrite He. apply not_elem_of_empty.
  - rewrite bool_decide_eq_false_2 by done. split; [|split; done].
    intros m. apply getText_set_fold.
Qed.

Lemma visible_text_goes_to_the_open_regions_witness :
  let x' := processTextItem (insideRegion 5) (textRun "Hello") in
  let active := activeSet (textStack (insideRegion 5)) in
  (∀ m, getText x' m
        = if decide (m ∈ active)
          then getText (insideRegion 5) m +:+ "Hello" +:+ textSuffix (textRun "Hello")
          else getText (insideRegion 5) m)
  ∧ (active ≠ ∅ → mcidHasContent x' = active ∪ mcidHasContent (insideRegion 5)
                  ∧ lastTextMcids x' = active)
  ∧ (active = ∅ → x' = insideRegion 5).
Proof.
  apply (visible_text_goes_to_the_open_regions (insideRegion 5) (textRun "Hello") "Hello").
  - repeat split; discriminate.
  - vm_compute. discriminate.
Defined.

(** X10.  White space that arrives before a region has any visible text
    is not lost and does not start the region's text: when none of the
    open content ids holds content yet and some text was seen before, a
    white-space-only item is appended to the ids that received text last
    (and to no other, the open ones included), and neither the set of ids
    that hold content nor the ids of the last text change. *)
Theorem white_space_before_content_joins_the_previous_text (x : ContentExtractor)
    (item : TextItem) (text : string) :
  isTextRun item text →
  trim text = EmptyString →
  activeSet (textStack x) ≠ ∅ →
  activeSet (textStack x) ∩ mcidHasContent x = ∅ →
  lastTextMcids x ≠ ∅ →
  let x' := processTextItem x item in
  (∀ m, getText x' m
        = if decide (m ∈ lastTextMcids x) then getText x m +:+ text +:+ textSuffix item
          else getText x m)
  ∧ mcidHasContent x' = mcidHasContent x
  ∧ lastTextMcids x' = lastTextMcids x.
Proof.
  intros Hrun Hws Hact Hnone Hlast. cbv zeta.
  rewrite (processTextItem_run x item text Hrun). cbv zeta.
  rewrite Hws. change (EmptyString =s EmptyString) with true. cbn [andb].
  rewrite (bool_decide_eq_false_2 (activeSet (textStack x) = ∅)) by done.
  rewrite (bool_decide_eq_false_2 (activeSet (textStack x) ∩ mcidHasContent x ≠ ∅))
    by (intros H; by apply H).
  rewrite (bool_decide_eq_false_2 (lastTextMcids x = ∅)) by done. cbn [negb andb].
  split; [|done]. intros m. apply getText_set_fold.
Qed.

Lemma white_space_before_content_joins_the_previous_text_witness :
  let x' := processTextItem (afterText "one") (textRun " ") in
  (∀ m, getText x' m
        = if decide (m ∈ lastTextMcids (afterText "one"))
          then getText (afterText "one") m +:+ " " +:+ textSuffix (textRun " ")
          else getText (afterText "one") m)
  ∧ mcidHasContent x' = mcidHasContent (afterText "one")
  ∧ lastTextMcids x' = lastTextMcids (afterText "one").
Proof.
  apply (white_space_before_content_joins_the_previous_text (afterText "one")
           (textRun " ") " ").
  - repeat split; discriminate.
  - reflexivity.
  - apply (bool_decide_unpack _). vm_compute. exact I.
  - apply (bool_decide_unpack _). vm_compute. exact I.
  - apply (bool_decide_unpack _). vm_compute. exact I.
Defined.

End TextAttribution.

Section DecimalNumbers.
Import Js Extractor Traversal Props Samples.










Lemma chars_app (a b : string) : chars (a +:+ b) = chars a ++ chars b.
Proof. induction a as [|x a IH]; [done|]. rewrite append_cons. simpl. by f_equal. Qed.

Lemma str_chars (s : string) : str (chars s) = s.
Proof. apply string_of_list_ascii_of_string. Qed.












End DecimalNumbers.

Section Identifiers.
Import Js Roles AttributeMapper Extractor Traversal Props Samples.

Lemma ensureGeneratedId_found ref addr ids :
  lookupGeneratedId ref addr (snd (ensureGeneratedId ref addr ids))
  = Some (fst (ensureGeneratedId ref addr ids)).
Proof.
  unfold ensureGeneratedId.
  destruct (lookupGeneratedId ref addr ids) as [existing|] eqn:Hlk; [exact Hlk|].
  destruct ref as [r|]; simpl; by rewrite lookup_insert_eq.
Qed.

Lemma ensureGeneratedId_keeps ref addr ids :
  idsKept ids (snd (ensureGeneratedId ref addr ids)).
Proof.
  intros ref' addr' g Hg. unfold ensureGeneratedId.
  destruct (lookupGeneratedId ref addr ids) as [existing|] eqn:Hlk; [exact Hg|].
  destruct ref as [r|], ref' as [r'|]; simpl in *; try exact Hg.
  - destruct (decide (getRefKey r = getRefKey r')) as [Heq|Hne].
    + rewrite Heq in Hlk. congruence.
    + by rewrite lookup_insert_ne.
  - destruct (decide (addr = addr')) as [->|Hne]; [congruence|].
    by rewrite lookup_insert_ne.
Qed.

(** X13.  Identifier allocation is stable: asking [ensureGeneratedId]
    again for the same element returns the identifier it returned the
    first time and changes nothing; the identifier is never empty; and the
    allocation leaves the identifier of every other element as it was. *)
Theorem generated_identifier_is_stable (ref : option Ref) (addr : N) (ids : IdState) :
  let '(id, ids') := ensureGeneratedId ref addr ids in
  ensureGeneratedId ref addr ids' = (id, ids')
  ∧ id ≠ EmptyString
  ∧ idsKept ids ids'.
Proof.
  pose proof (ensureGeneratedId_found ref addr ids) as Hfound.
  pose proof (ensureGeneratedId_keeps ref addr ids) as Hkeep.
  destruct (ensureGeneratedId ref addr ids) as [id ids'] eqn:Hens. simpl in *.
  split; [|split; [|exact Hkeep]].
  - unfold ensureGeneratedId at 1. by rewrite Hfound.
  - intros ->. unfold lookupGeneratedId, nonEmpty in Hfound.
    destruct ref; [destruct (byRef ids' !! _) as [[|]|]
                  | destruct (byDict ids' !! _) as [[|]|]]; discriminate.
Qed.

End Identifiers.

Section IdentifiersKept.
Import Js Roles AttributeMapper Extractor Traversal Props.

Variable P : Provider.
Variable context : PDFContext.

Lemma idsKept_refl ids : idsKept ids ids.
Proof. by intros ref addr g. Qed.

Lemma idsKept_trans a b c : idsKept a b → idsKept b c → idsKept a c.
Proof. intros H1 H2 ref addr g Hg. by apply H2, H1. Qed.

Lemma idAttr_keeps ref addr f ids : idsKept ids (snd (idAttr P ref addr f ids)).
Proof.
  unfold idAttr. destruct (nonEmpty (fID f)); [apply idsKept_refl|].
  pose proof (ensureGeneratedId_keeps ref addr ids) as Hk.
  by destruct (ensureGeneratedId ref addr ids).
Qed.

Lemma elementAttrs_keeps ref addr f sType sel ctx ids :
  idsKept ids (snd (elementAttrs P ref addr f sType sel ctx ids)).
Proof.
  unfold elementAttrs. pose proof (idAttr_keeps ref addr f ids) as Hk.
  by destruct (idAttr P ref addr f ids).
Qed.

Lemma childStep_keeps pg ctx acc (child : StructObj * Renderer) :
  keepingRenderer (snd child) →
  idsKept (accIds acc) (accIds (childStep P context pg ctx acc child)).
Proof.
  intros Hr. unfold childStep. specialize (Hr pg ctx (accIds acc)).
  destruct (snd child pg ctx (accIds acc)) as [rendered ids']. simpl in Hr.
  destruct (roleIs (parentRole ctx) "L"); [destruct (roleIs _ "L")|]; exact Hr.
Qed.

Lemma fold_childStep_keeps pg ctx (children : list (StructObj * Renderer)) acc :
  Forall (λ child, keepingRenderer (snd child)) children →
  idsKept (accIds acc) (accIds (fold_left (childStep P context pg ctx) children acc)).
Proof.
  intros Hall. revert acc.
  induction Hall as [|child children Hc _ IH]; intros acc; simpl; [apply idsKept_refl|].
  eapply idsKept_trans; [by apply childStep_keeps | apply IH].
Qed.

Lemma processChildrenWith_keeps (render : bool → StructObj → Renderer)
    (k : Kids StructObj) :
  match k with
  | KAbsent => True
  | KOne c => keepingRenderer (render false c)
  | KArray cs => Forall (λ c, keepingRenderer (render true c)) cs
  end →
  keepingRenderer (processChildrenWith P context render k).
Proof.
  intros Hk pg ctx ids. unfold processChildrenWith.
  destruct (kidsFalsy k); [apply idsKept_refl|].
  destruct k as [|c|cs].
  - apply idsKept_refl.
  - specialize (Hk pg ctx ids).
    destruct (render false c pg ctx ids) as [rendered ids']. exact Hk.
  - cbn [snd].
    apply (fold_childStep_keeps pg ctx _ (mkAcc EmptyString EmptyString false ids)).
    unfold reorderCaptionElements. apply Forall_app. split.
    + apply Forall_filter_keep.
      induction Hk as [|c cs Hc _ IH]; simpl; by constructor.
    + apply Forall_filter_keep.
      induction Hk as [|c cs Hc _ IH]; simpl; by constructor.
Qed.

Lemma processLink_keeps ref addr f (children : Renderer) :
  keepsIds P → keepingRenderer children →
  keepingRenderer (processLink P context ref addr f children).
Proof.
  intros HP Hch pg ctx ids. unfold processLink.
  pose proof (HP f ids) as H1.
  destruct (linkHref P f ids) as [href ids1]. simpl in H1.
  pose proof (idAttr_keeps ref addr f ids1) as H2.
  destruct (idAttr P ref addr f ids1) as [idPart ids2]. simpl in H2.
  destruct (nonEmpty (fActualText f)).
  - simpl. by eapply idsKept_trans.
  - specialize (Hch pg ctx ids2). destruct (children pg ctx ids2) as [rendered ids3].
    simpl in *. eapply idsKept_trans; [|exact Hch]. by eapply idsKept_trans.
Qed.

Lemma processDict_keeps ref addr f k (children : Renderer) :
  keepsIds P → keepingRenderer children →
  keepingRenderer (processDict P context ref addr f k children).
Proof.
  intros HP Hch pg ctx ids. unfold processDict.
  destruct (roleIs (fType f) "MCR"); [apply idsKept_refl|].
  destruct (roleIs (fType f) "OBJR"); [apply idsKept_refl|].
  destruct (replacement (fAF f)); [apply idsKept_refl|].
  destruct (structType f) as [sType|].
  2:{ destruct (kidsFalsy k); [apply idsKept_refl|].
      match goal with
      | |- context [children ?a ?b ?c] =>
          specialize (Hch a b c); destruct (children a b c) as [rendered ids']
      end. exact Hch. }
  set (sel := selectTag P context f k sType _ ctx _).
  destruct ((selRole sel =s "Reference") && hasLinkChild P context k); [apply Hch|].
  destruct (selRole sel =s "Link"); [by apply processLink_keeps|].
  pose proof (elementAttrs_keeps ref addr f sType sel ctx ids) as H1.
  destruct (elementAttrs P ref addr f sType sel ctx ids) as [attrs ids1]. simpl in H1.
  assert (Hout : ∀ (content0 contentText : string) (ids2 : IdState),
    snd (let content := wrapExpansion P f content0 +:+ joinSupplements (fAF f) in
         if selRole sel =s "NonStruct" then (mkRendered content contentText None, ids2)
         else if (selRole sel =s "Private") || (selRole sel =s "Artifact")
              then (emptyContent, ids2)
         else if isVoidTag (selTag sel)
              then (mkRendered ("<" +:+ selTag sel +:+ attrs +:+ "/>") EmptyString
                               (Some (selTag sel)), ids2)
         else (mkRendered ("<" +:+ selTag sel +:+ attrs +:+ ">" +:+ content
                           +:+ "</" +:+ selTag sel +:+ ">")
                          contentText (Some (selTag sel)), ids2)) = ids2).
  { intros. cbv zeta.
    destruct (selRole sel =s "NonStruct"); [reflexivity|].
    destruct ((selRole sel =s "Private") || (selRole sel =s "Artifact")); [reflexivity|].
    by destruct (isVoidTag (selTag sel)). }
  destruct (nonEmpty (fActualText f)).
  - rewrite Hout. exact H1.
  - match goal with
    | |- context [children ?a ?b ?c] =>
        specialize (Hch a b c); destruct (children a b c) as [rendered ids2]
    end.
    rewrite Hout. by eapply idsKept_trans.
Qed.

Lemma processStructElement_keeps (t : StructObj) :
  keepsIds P → ∀ viaArray, keepingRenderer (processStructElement P context viaArray t).
Proof.
  intros HP. induction t as [|n| |ref addr f|ref addr f c IH|ref addr f cs IH]
    using StructObj_tree_ind; intros viaArray.
  - intros pg ctx ids. apply idsKept_refl.
  - intros pg ctx ids. simpl. destruct pg; apply idsKept_refl.
  - intros pg ctx ids. apply idsKept_refl.
  - simpl. apply processDict_keeps; [exact HP|]. by apply processChildrenWith_keeps.
  - simpl. apply processDict_keeps; [exact HP|].
    apply processChildrenWith_keeps. by apply IH.
  - simpl. apply processDict_keeps; [exact HP|].
    apply processChildrenWith_keeps.
    induction IH as [|c cs Hc _ IHcs]; constructor; [by apply Hc | exact IHcs].
Qed.

(** X14.  Over a whole traversal no identifier is ever reassigned: an
    element that has been given a generated identifier - before the
    traversal of some children, or anywhere in the document before them -
    still has that identifier after it, whatever the children are (nested
    elements, links, suppressed elements, elements reached twice).  The
    links the provider resolves are assumed to keep identifiers too. *)
Theorem allocated_identifiers_are_never_reassigned (k : Kids StructObj)
    (pg : option Ref) (ctx : TraversalContext) (ids : IdState) :
  keepsIds P →
  idsKept ids (snd (processChildren P context k pg ctx ids)).
Proof.
  intros HP. unfold processChildren. apply processChildrenWith_keeps.
  destruct k as [|c|cs]; [exact I | by apply processStructElement_keeps|].
  induction cs as [|c cs IH]; constructor; [by apply processStructElement_keeps | exact IH].
Qed.

End IdentifiersKept.

Section IdentifiersKeptExamples.
Import Js Roles AttributeMapper Extractor Traversal Props Samples.

Lemma allocated_identifiers_are_never_reassigned_witness :
  idsKept initialIdState
    (snd (processChildren plainProvider (document None [])
            (KArray [referenceOverLink; hostileParagraph]) None initialContext
            initialIdState)).
Proof.
  apply (allocated_identifiers_are_never_reassigned plainProvider (document None [])).
  intros f ids ref addr g Hg. exact Hg.
Defined.

End IdentifiersKeptExamples.

Section EdgeWhitespace.
Import Js Roles AttributeMapper Extractor Traversal Props.

Lemma takeWhile_dropWhile {A} (p : A → bool) (l : list A) :
  Js.takeWhile p l ++ Js.dropWhile p l = l.
Proof. induction l as [|x l IH]; simpl; [done|]. destruct (p x); simpl; congruence. Qed.

Lemma takeWhile_all {A} (p : A → bool) (l : list A) : forallb p (Js.takeWhile p l) = true.
Proof.
  induction l as [|x l IH]; simpl; [done|].
  destruct (p x) eqn:Hp; simpl; [|done]. by rewrite Hp.
Qed.

Lemma dropWhile_head {A} (p : A → bool) (l : list A) :
  match Js.dropWhile p l with x :: _ => p x = false | [] => True end.
Proof.
  induction l as [|x l IH]; simpl; [done|].
  destruct (p x) eqn:Hp; [exact IH | exact Hp].
Qed.

Lemma str_app (a b : list ascii) : str (a ++ b) = str a +:+ str b.
Proof. induction a as [|x a IH]; simpl; [done|]. rewrite append_cons. by f_equal. Qed.

Lemma forallb_rev {A} (p : A → bool) (l : list A) : forallb p (rev l) = forallb p l.
Proof.
  induction l as [|x l IH]; simpl; [done|].
  rewrite forallb_app, IH. simpl. rewrite andb_true_r. apply andb_comm.
Qed.

Lemma splitEdgeWhitespace_join (text : string) :
  leading (splitEdgeWhitespace text) +:+ core (splitEdgeWhitespace text)
  +:+ trailing (splitEdgeWhitespace text) = text.
Proof.
  unfold splitEdgeWhitespace. cbn [leading core trailing].
  rewrite <- !str_app.
  rewrite <- rev_app_distr, takeWhile_dropWhile, rev_involutive.
  rewrite takeWhile_dropWhile. apply str_chars.
Qed.

Lemma splitEdgeWhitespace_core (text : string) :
  core (splitEdgeWhitespace text) = trim text.
Proof.
  unfold splitEdgeWhitespace, trim, trimEnd, trimStart. cbn [core]. by rewrite chars_str.
Qed.

(** X15.  [splitEdgeWhitespace] loses and invents nothing: the three
    parts put together are the text; the leading and the trailing part are
    white space only; the core neither starts nor ends with white space, and
    it is the trimmed text. *)
Theorem edge_white_space_split (text : string) :
  let parts := splitEdgeWhitespace text in
  leading parts +:+ core parts +:+ trailing parts = text
  ∧ forallb isSpace (chars (leading parts)) = true
  ∧ forallb isSpace (chars (trailing parts)) = true
  ∧ hasLeadingWhitespace (core parts) = false
  ∧ hasTrailingWhitespace (core parts) = false
  ∧ core parts = trim text.
Proof.
  cbv zeta. split; [apply splitEdgeWhitespace_join|].
  split; [|split; [|split; [|split; [|apply splitEdgeWhitespace_core]]]];
    unfold splitEdgeWhitespace; cbn [leading core trailing];
    set (l := chars text); set (rest := Js.dropWhile isSpace l).
  - rewrite chars_str. apply takeWhile_all.
  - rewrite chars_str, forallb_rev. apply takeWhile_all.
  - unfold hasLeadingWhitespace. rewrite chars_str.
    pose proof (dropWhile_head isSpace l) as Hh. fold rest in Hh.
    pose proof (takeWhile_dropWhile isSpace (rev rest)) as Hsplit.
    apply (f_equal (@rev ascii)) in Hsplit.
    rewrite rev_app_distr, rev_involutive in Hsplit.
    destruct (rev (Js.dropWhile isSpace (rev rest))) as [|c mid]; [done|].
    rewrite <- Hsplit in Hh. exact Hh.
  - unfold hasTrailingWhitespace. rewrite chars_str, rev_involutive.
    pose proof (dropWhile_head isSpace (rev rest)) as Hh.
    by destruct (Js.dropWhile isSpace (rev rest)).
Qed.

End EdgeWhitespace.

Section Captions.
Import Js Roles AttributeMapper Extractor Traversal Props.

Variable P : Provider.
Variable context : PDFContext.

Lemma filter_filter_same {A} (p : A → bool) (l : list A) :
  List.filter p (List.filter p l) = List.filter p l.
Proof.
  induction l as [|x l IH]; simpl; [done|].
  destruct (p x) eqn:Hp; simpl; [rewrite Hp; by f_equal | exact IH].
Qed.

Lemma filter_filter_none {A} (p : A → bool) (l : list A) :
  List.filter (λ x, negb (p x)) (List.filter p l) = [].
Proof.
  induction l as [|x l IH]; simpl; [done|].
  destruct (p x) eqn:Hp; simpl; [by rewrite Hp | exact IH].
Qed.

Lemma filter_neg_filter_none {A} (p : A → bool) (l : list A) :
  List.filter p (List.filter (λ x, negb (p x)) l) = [].
Proof.
  induction l as [|x l IH]; simpl; [done|].
  destruct (p x) eqn:Hp; simpl; [exact IH | by rewrite Hp].
Qed.

Lemma filter_partition_Permutation {A} (p : A → bool) (l : list A) :
  List.filter p l ++ List.filter (λ x, negb (p x)) l ≡ₚ l.
Proof.
  induction l as [|x l IH]; simpl; [done|].
  destruct (p x); simpl.
  - by constructor.
  - rewrite <- Permutation_middle. by constructor.
Qed.

Lemma filter_all {A} (p : A → bool) (l : list A) :
  Forall (λ b, p b = true) (List.filter p l).
Proof.
  induction l as [|x l IH]; simpl; [constructor|].
  destruct (p x) eqn:Hp; [by constructor | exact IH].
Qed.

Lemma front_of_partition {A} (p : A → bool) (caps others before after : list A) (c : A) :
  Forall (λ b, p b = true) caps → Forall (λ b, negb (p b) = true) others →
  caps ++ others = before ++ c :: after → p c = true →
  Forall (λ b, p b = true) before.
Proof.
  intros Hcap Hoth. revert before.
  induction Hcap as [|x caps Hx _ IH]; intros before Heq Hc; simpl in Heq.
  - exfalso. subst others. apply Forall_app in Hoth as [_ Hoth].
    inversion Hoth; subst. rewrite Hc in *. discriminate.
  - destruct before as [|b before]; [constructor|].
    simpl in Heq. injection Heq as <- Heq. constructor; [exact Hx | by apply IH].
Qed.

Lemma filter_none {A} (p : A → bool) (l : list A) :
  Forall (λ c, p c = false) l → List.filter p l = [].
Proof. induction 1 as [|x l Hx _ IH]; [done|]. simpl. by rewrite Hx. Qed.

Lemma filter_none_id {A} (p : A → bool) (l : list A) :
  Forall (λ c, p c = false) l →
  List.filter p l ++ List.filter (λ x, negb (p x)) l = l.
Proof.
  intros Hall. rewrite (filter_none p l Hall). simpl.
  induction Hall as [|x l Hx _ IH]; [done|]. simpl. rewrite Hx. simpl. by f_equal.
Qed.

(** X16.  Moving captions to the front is a reordering and nothing else:
    the children that [reorderCaptionElements] returns are the given ones,
    each as often as before; everything in front of a caption is a caption;
    reordering again changes nothing; and children without a caption keep
    their order. *)
Theorem captions_move_to_the_front {B} (children : list (StructObj * B)) :
  let reordered := reorderCaptionElements P context children in
  reordered ≡ₚ children
  ∧ reorderCaptionElements P context reordered = reordered
  ∧ (∀ before c after, reordered = before ++ c :: after →
       isCaption P context (fst c) = true →
       Forall (λ b, isCaption P context (fst b) = true) before)
  ∧ (Forall (λ c, isCaption P context (fst c) = false) children → reordered = children).
Proof.
  cbv zeta. unfold reorderCaptionElements.
  set (p := λ cb : StructObj * B, isCaption P context (fst cb)).
  change (λ cb : StructObj * B, negb (isCaption P context (fst cb)))
    with (λ cb, negb (p cb)).
  split; [|split; [|split]].
  - apply filter_partition_Permutation.
  - rewrite !List.filter_app.
    rewrite (filter_filter_same p), (filter_neg_filter_none p).
    rewrite (filter_filter_none p), (filter_filter_same (λ x, negb (p x))).
    by rewrite app_nil_r.
  - intros before c after Heq Hc.
    apply (front_of_partition p _ _ before after c (filter_all p children)
             (filter_all (λ x, negb (p x)) children) Heq Hc).
  - apply (filter_none_id p).
Qed.

End Captions.

Section Selection.
Import Js Roles AttributeMapper Extractor Traversal Props.

Variable P : Provider.
Variable context : PDFContext.







End Selection.

Section ElementRendering.
Import Js Roles AttributeMapper Extractor Traversal Props.

Variable P : Provider.
Variable context : PDFContext.



End ElementRendering.

Section ElementRenderingExamples.
Import Js Roles AttributeMapper Extractor Traversal Props Samples.



End ElementRenderingExamples.

Section PlainRegions.
Import Js Roles AttributeMapper Extractor Traversal Props.

Variable P : Provider.
Variable context : PDFContext.

Lemma append_empty_l (a : string) : EmptyString +:+ a = a.
Proof. reflexivity. Qed.

Lemma escapeChar_truthy (c : ascii) : truthy (escapeChar c) = true.
Proof.
  unfold escapeChar.
  repeat match goal with
         | |- context [if ?b then _ else _] => destruct b
         end; reflexivity.
Qed.

Lemma escapeHtml_empty (s : string) : truthy (escapeHtml s) = false → s = EmptyString.
Proof.
  destruct s as [|c s]; [done|]. rewrite escapeHtml_cons.
  pose proof (escapeChar_truthy c) as Hc.
  destruct (escapeChar c); [discriminate|]. rewrite append_cons. discriminate.
Qed.

(** X20.  A marked-content region without images, properties and vector
    operators renders as its text, escaped, and nothing else: the markup of
    the region is [escapeHtml] of the text the extractor holds for the
    content id - all of it, edge white space included - and the text of
    the result is that text; where the text is to be trimmed (MathML token
    elements), both are those of the trimmed text. *)
Theorem plain_region_renders_its_escaped_text (mcid : Z) (pgRef : Ref)
    (bbox : option (list PDFValue)) (imageAlt : option string)
    (preferVector trimText : bool) :
  getPageIndex context pgRef ≠ (-1)%Z →
  let extractor := extractorFor P context (getPageIndex context pgRef) in
  getImages extractor mcid = [] →
  getProperties extractor mcid = None →
  hasVectorOperators extractor mcid = false →
  let shown := if trimText then trim (getText extractor mcid) else getText extractor mcid in
  fetchContentForMCID P context mcid pgRef bbox imageAlt preferVector trimText
  = mkRendered (escapeHtml shown) shown None.
Proof.
  intros Hpage extractor Himg Hprops Hvec shown.
  unfold fetchContentForMCID. apply Z.eqb_neq in Hpage. rewrite Hpage.
  fold extractor. rewrite Himg, Hprops, Hvec. cbn [option_bind mbind nonEmpty].
  rewrite bool_decide_eq_true_2 by done. rewrite !andb_false_r. cbn [andb negb map].
  rewrite splitEdgeWhitespace_core.
  set (t := getText extractor mcid) in *.
  change (String.concat EmptyString []) with EmptyString.
  destruct trimText.
  - subst shown. cbv zeta.
    change (escapeHtml EmptyString) with EmptyString.
    destruct (truthy (escapeHtml (trim t))) eqn:Ht; cbn [andb].
    + by rewrite !append_empty_l, !append_empty_r.
    + apply escapeHtml_empty in Ht. rewrite Ht. reflexivity.
  - subst shown. cbv zeta.
    destruct (truthy (escapeHtml t)) eqn:Ht; cbn [andb].
    + rewrite !append_empty_l, !append_empty_r. rewrite <- !escapeHtml_app.
      rewrite <- splitEdgeWhitespace_core, splitEdgeWhitespace_join. reflexivity.
    + apply escapeHtml_empty in Ht. rewrite Ht. reflexivity.
Qed.

End PlainRegions.

Section PlainRegionExamples.
Import Js Roles AttributeMapper Extractor Traversal Props Samples.

Lemma plain_region_renders_its_escaped_text_witness :
  fetchContentForMCID plainProvider (onPage helloPage []) 0 pageRef None None false false
  = mkRendered (escapeHtml "a < b") "a < b" None.
Proof.
  apply (plain_region_renders_its_escaped_text plainProvider (onPage helloPage []) 0
           pageRef None None false false).
  - discriminate.
  - vm_compute. reflexivity.
  - vm_compute. reflexivity.
  - vm_compute. reflexivity.
Defined.

End PlainRegionExamples.

Section TextOfMarkup.
Import Js Traversal Props HtmlText.

Example decode_samples :
  decodeHtmlEntities "a &lt; b &AMP; c&#39;&#x41;&nbsp;&bogus; &#xZ; &"
  = Some "a < b & c'A &bogus; &#xZ; &"
  ∧ decodeHtmlEntities "&#256;" = None
  ∧ decodeHtmlEntities "&#1114112;" = Some "&#1114112;"
  ∧ HtmlText.extractTextFromHtml
      "<p class='x'>a<!-- c -->b</p><script>x</script><STYLE>y</style>c<br"
    = Some "abc".
Proof. vm_compute. repeat split; reflexivity. Qed.

Lemma decodeFrom_escapeChar (c : ascii) (l : list ascii) :
  decodeFrom 0 (chars (escapeChar c) ++ l) = String c <$> decodeFrom 0 l.
Proof.
  unfold escapeChar.
  destruct (Ascii.eqb c "&"%char) eqn:Hamp.
  { apply Ascii.eqb_eq in Hamp as ->. reflexivity. }
  destruct (Ascii.eqb c "<"%char) eqn:Hlt.
  { apply Ascii.eqb_eq in Hlt as ->. reflexivity. }
  destruct (Ascii.eqb c ">"%char) eqn:Hgt.
  { apply Ascii.eqb_eq in Hgt as ->. reflexivity. }
  destruct (Ascii.eqb c (chr 34)) eqn:Hdq.
  { apply Ascii.eqb_eq in Hdq as ->. reflexivity. }
  destruct (Ascii.eqb c (chr 39)) eqn:Hap.
  { apply Ascii.eqb_eq in Hap as ->. reflexivity. }
  simpl. by rewrite Hamp.
Qed.

Lemma decode_escapeHtml (s : string) : decodeHtmlEntities (escapeHtml s) = Some s.
Proof.
  unfold decodeHtmlEntities. induction s as [|c s IH]; [reflexivity|].
  rewrite escapeHtml_cons, chars_app, decodeFrom_escapeChar, IH. reflexivity.
Qed.

Lemma not_lt (c : ascii) : special c = false → Ascii.eqb c "<"%char = false.
Proof.
  unfold special. intros Hc.
  apply orb_false_iff in Hc as [Hc _]. apply orb_false_iff in Hc as [Hc _].
  apply orb_false_iff in Hc as [Hc _]. exact Hc.
Qed.

Lemma stripFrom_text (a rest : string) :
  neutral a = true → stripFrom 0 (a +:+ rest) = a +:+ stripFrom 0 rest.
Proof.
  induction a as [|c a IH]; [done|]. rewrite neutral_cons.
  intros H. apply andb_prop in H as [Hc Hs]. rewrite !append_cons. simpl.
  apply negb_true_iff, not_lt in Hc. rewrite Hc. by rewrite IH.
Qed.

(** X21.  Escaping loses nothing: for every string, decoding the
    entities of its escaped form gives the string back, and so does
    [extractTextFromHtml] - the five characters that [escapeHtml] replaces
    included, and an ampersand followed by what looks like an entity too. *)
Theorem escaped_text_is_recovered (s : string) :
  decodeHtmlEntities (escapeHtml s) = Some s
  ∧ HtmlText.extractTextFromHtml (escapeHtml s) = Some s.
Proof.
  split; [apply decode_escapeHtml|].
  unfold HtmlText.extractTextFromHtml.
  destruct (negb (truthy (escapeHtml s))) eqn:He.
  - apply negb_true_iff, escapeHtml_empty in He. by rewrite He.
  - rewrite <- (append_empty_r (escapeHtml s)).
    rewrite stripFrom_text by apply neutral_escapeHtml.
    cbn [stripFrom]. rewrite append_empty_r. apply decode_escapeHtml.
Qed.

Lemma stripFrom_skip (a rest : string) (n : nat) :
  stripFrom (String.length a + n) (a +:+ rest) = stripFrom n rest.
Proof. induction a as [|c a IH]; [done|]. rewrite append_cons. simpl. exact IH. Qed.

Lemma indexOf_gt (t rest : string) :
  forallb (fun c => negb (Ascii.eqb c ">"%char)) (chars t) = true →
  indexOf ">" (t +:+ ">" +:+ rest) = Some (String.length t).
Proof.
  induction t as [|c t IH]; [by destruct rest|]. simpl forallb.
  intros H. apply andb_prop in H as [Hc Ht]. rewrite append_cons.
  cbn [indexOf startsWith String.prefix].
  destruct (ascii_dec ">" c) as [<-|Hne]; [discriminate|].
  rewrite (IH Ht). reflexivity.
Qed.

Lemma substring_app (t rest : string) : substring 0 (String.length t) (t +:+ rest) = t.
Proof.
  induction t as [|c t IH]; [by destruct rest|]. rewrite append_cons. simpl. by f_equal.
Qed.

Lemma not_comment (t rest : string) :
  forallb (fun c => negb (Ascii.eqb c ">"%char)) (chars t) = true →
  startsWith "!--" t = false →
  startsWith "!--" (t +:+ ">" +:+ rest) = false.
Proof.
  unfold startsWith.
  destruct t as [|a [|b [|c t]]]; rewrite ?append_cons; cbn [String.prefix];
    intros _.
  - reflexivity.
  - destruct (ascii_dec "!" a); reflexivity.
  - destruct (ascii_dec "!" a); [|reflexivity]. destruct (ascii_dec "-" b); reflexivity.
  - destruct (ascii_dec "!" a); [|done]. destruct (ascii_dec "-" b); [|done].
    destruct (ascii_dec "-" c); [|done]. by destruct t.
Qed.

Lemma stripFrom_tag (t rest : string) :
  ordinaryTag t = true →
  stripFrom 0 ("<" +:+ t +:+ ">" +:+ rest) = stripFrom 0 rest.
Proof.
  unfold ordinaryTag. intros H. apply andb_prop in H as [H Hss].
  apply andb_prop in H as [Hgt Hc].
  apply negb_true_iff in Hc, Hss.
  change ("<" +:+ t +:+ ">" +:+ rest) with (String "<" (t +:+ ">" +:+ rest)).
  cbn [stripFrom Ascii.eqb Bool.eqb]. unfold tagSkip.
  change (startsWith "<!--" (String "<" (t +:+ ">" +:+ rest)))
    with (startsWith "!--" (t +:+ ">" +:+ rest)).
  rewrite (not_comment t rest Hgt Hc).
  cbn [sliceFrom]. rewrite (indexOf_gt t rest Hgt).
  cbn [substring]. rewrite substring_app, Hss.
  replace (String.length t + 2)%nat with (S (String.length t + 1)) by lia.
  cbn [Nat.pred]. rewrite stripFrom_skip. reflexivity.
Qed.

(** X22.  The text of an element is the text of its content: for markup
    made of an opening tag, escaped text and a closing tag - the tags with
    whatever attributes, as long as they hold no [>] and are no comment,
    script or style - [extractTextFromHtml] returns the text that was
    escaped, without anything of the tags. *)
Theorem element_text_is_its_escaped_content (opening closing s : string) :
  ordinaryTag opening = true →
  ordinaryTag ("/" +:+ closing) = true →
  HtmlText.extractTextFromHtml
    ("<" +:+ opening +:+ ">" +:+ escapeHtml s +:+ "</" +:+ closing +:+ ">")
  = Some s.
Proof.
  intros Ho Hc. unfold HtmlText.extractTextFromHtml.
  assert (Ht : ∀ x, truthy ("<" +:+ x) = true) by reflexivity.
  rewrite Ht. cbn [negb].
  change ("</" +:+ closing +:+ ">") with ("<" +:+ ("/" +:+ closing) +:+ ">" +:+ EmptyString).
  rewrite (stripFrom_tag opening _ Ho).
  rewrite (stripFrom_text _ _ (neutral_escapeHtml s)).
  rewrite (stripFrom_tag _ _ Hc). cbn [stripFrom].
  rewrite append_empty_r. apply decode_escapeHtml.
Qed.

Lemma element_text_is_its_escaped_content_witness :
  HtmlText.extractTextFromHtml
    ("<" +:+ "p lang='en'" +:+ ">" +:+ escapeHtml "a < b & c" +:+ "</" +:+ "p" +:+ ">")
  = Some "a < b & c".
Proof.
  apply (element_text_is_its_escaped_content "p lang='en'" "p" "a < b & c");
    reflexivity.
Defined.

End TextOfMarkup.

Section AssociatedFileFacts.
Import Js Roles Extractor Traversal Props AssociatedFiles.

Example url_reference_samples :
  extension "https://example.org/a.b/Style.CSS" = "css"
  ∧ extension "noextension" = "noextension"
  ∧ content <$> processURLReference "x/photo.JPG" Supplement false
    = Some ("<img src=" +:+ dq +:+ "x/photo.JPG" +:+ dq +:+ " />")
  ∧ processURLReference "x/data.pdf" Supplement false = None.
Proof. vm_compute. repeat split; reflexivity. Qed.

(** X23.  The markup made for an associated file that is a URL reference
    is sound when the URL is: [processURLReference] inserts the URL as it
    stands, and for a URL without [<], [>], double quote and apostrophe the
    element it returns - style, script, img or link, by the extension -
    scans as complete tags; the result keeps the relationship it was given
    and is placed in the head or inline, never after the element. *)
Theorem url_reference_markup_is_well_tagged (url : string)
    (relationship0 : AFRelationship) (isHead : bool) (r : FileResult) :
  neutral url = true →
  processURLReference url relationship0 isHead = Some r →
  wellTagged (content r) ∧ relationship r = relationship0
  ∧ place r = (if isHead then Head else Inline).
Proof.
  intros Hurl. unfold processURLReference.
  repeat match goal with
         | |- context [if ?b then _ else _] =>
             lazymatch b with
             | isHead => fail
             | _ => destruct b
             end
         end; intros [= <-]; (split; [|split; reflexivity]); cbn [content];
    unfold wellTagged.
  - apply (lex_seq _ InText); [reflexivity|].
    apply (lex_seq _ InText); [by apply lex_neutral | reflexivity].
  - apply (lex_seq _ InTag); [reflexivity|].
    apply (lex_seq _ InQuote); [reflexivity|].
    apply (lex_seq _ InQuote); [by apply lex_neutral|].
    apply (lex_seq _ InTag); reflexivity.
  - apply (lex_seq _ InTag); [reflexivity|].
    apply (lex_seq _ InQuote); [reflexivity|].
    apply (lex_seq _ InQuote); [by apply lex_neutral|].
    apply (lex_seq _ InTag); reflexivity.
  - apply (lex_seq _ InTag); [reflexivity|].
    apply (lex_seq _ InQuote); [reflexivity|].
    apply (lex_seq _ InQuote); [reflexivity|].
    apply (lex_seq _ InTag); [reflexivity|].
    apply (lex_seq _ InTag); [reflexivity|].
    apply (lex_seq _ InQuote); [reflexivity|].
    apply (lex_seq _ InQuote); [by apply lex_neutral|].
    apply (lex_seq _ InTag); reflexivity.
Qed.

Lemma url_reference_markup_is_well_tagged_witness :
  wellTagged ("<style>@import url(" +:+ "https://example.org/print.css" +:+ ");</style>")
  ∧ Supplement = Supplement
  ∧ Inline = (if false then Head else Inline).
Proof.
  apply (url_reference_markup_is_well_tagged "https://example.org/print.css" Supplement
           false
           (mkFile ("<style>@import url(" +:+ "https://example.org/print.css"
                    +:+ ");</style>") Supplement Inline));
    reflexivity.
Defined.

Lemma collect_run {A} (process : A → option FileResult) (afs : list A) (acc : AFResult) :
  let rs := results process afs in
  let folded := fold_left (fun acc af => collectFile acc (process af)) afs acc in
  replacement folded
  = match replacement acc with
    | Some r => Some r
    | None => content <$> List.find isAlternative rs
    end
  ∧ supplements folded = supplements acc ++ map content (List.filter isSupplement rs).
Proof.
  cbv zeta. revert acc. induction afs as [|af afs IH]; intros acc.
  - simpl. split; [by destruct (replacement acc) | by rewrite app_nil_r].
  - cbn [fold_left]. destruct (IH (collectFile acc (process af))) as [IHr IHs].
    rewrite IHr, IHs. clear IHr IHs IH.
    unfold results. cbn [flat_map]. fold (results process afs).
    generalize (results process afs) as rs. intros rs.
    destruct (process af) as [r|]; [|split; reflexivity].
    unfold collectFile. cbn [app List.find List.filter].
    assert (Ha : isAlternative r
                 = match relationship r with Alternative => true | _ => false end)
      by reflexivity.
    assert (Hs : isSupplement r
                 = match relationship r with Supplement => true | _ => false end)
      by reflexivity.
    destruct (relationship r); rewrite Ha, Hs; cbn [replacement supplements].
    + destruct (replacement acc) eqn:Hra; cbn [replacement supplements];
        rewrite ?Hra; split; reflexivity.
    + cbn [map]. rewrite <- app_assoc. split; reflexivity.
    + split; reflexivity.
Qed.

(** X24.  Of the associated files of an element, the first that is an
    Alternative replaces the element, and later Alternatives are ignored;
    the Supplements are all kept, in the order of the files; files that
    cannot be processed and files with another relationship contribute
    nothing.  [getStructureAssociatedFiles] returns exactly that: the
    content of the first Alternative among the results as the replacement,
    and the contents of the Supplements in their order. *)
Theorem first_alternative_replaces_and_supplements_keep_order {A}
    (process : A → option FileResult) (afs : list A) :
  let found := getStructureAssociatedFiles process afs in
  replacement found = content <$> List.find isAlternative (results process afs)
  ∧ supplements found = map content (List.filter isSupplement (results process afs)).
Proof.
  cbv zeta. unfold getStructureAssociatedFiles.
  destruct (collect_run process afs noAF) as [Hr Hs]. by rewrite Hr, Hs.
Qed.

End AssociatedFileFacts.
